(** * zarban-go: response classification, native amounts, step-wise execution

    A shallow embedding of the hand-written parts of the zarban-go SDK
    (service/utils.go, examples/errorHandler.go, the vault creation example
    and the vault repayment example) together with the properties its
    specification states about them.

    Conventions.
    - Go's [int], [int64] and [time.Duration] are [Z]; where the code can
      leave the 64-bit range this is written out.
    - Go's [float64] is Rocq's primitive binary64 [float]; [math/big]'s
      [Float] and [Int] are modelled by their values.
    - Go maps are stdpp [gmap]s, slices are lists.
    - Calls that leave the process (HTTP, Ethereum RPC, the clock, the file
      system) are explicit parameters or explicit state. *)

From Stdlib Require Import ZArith QArith Qround Qabs List String Ascii Floats Lia DecimalString.
From stdpp Require Import gmap strings list.

#[local] Set Warnings "-inexact-float".
#[local] Open Scope Z_scope.

(** ** Results of Go calls *)

(** A Go call of type [(T, error)] returns a value or an error; it may also
    panic.  [log.Fatalf] is modelled at the call sites that use it. *)
Inductive result (A : Type) : Type :=
| Ok (a : A)
| Err (msg : string)
| Panic (msg : string).
Arguments Ok {A} a.
Arguments Err {A} msg.
Arguments Panic {A} msg.

Definition is_ok {A} (r : result A) : bool :=
  match r with Ok _ => true | _ => false end.

Definition is_err {A} (r : result A) : bool :=
  match r with Err _ => true | _ => false end.

(** ** The parts of Go's standard library the examples call *)

Module Go.

(** [big.Int.String]: minimal decimal text, a leading [-] when negative. *)
Definition Int_String (z : Z) : string := NilZero.string_of_int (Z.to_int z).

(** [math.Pow10]: table lookups and one float operation. *)
Definition pow10tab : list float :=
  [ 1e00; 1e01; 1e02; 1e03; 1e04; 1e05; 1e06; 1e07; 1e08; 1e09;
    1e10; 1e11; 1e12; 1e13; 1e14; 1e15; 1e16; 1e17; 1e18; 1e19;
    1e20; 1e21; 1e22; 1e23; 1e24; 1e25; 1e26; 1e27; 1e28; 1e29;
    1e30; 1e31 ]%float.

Definition pow10postab32 : list float :=
  [ 1e00; 1e32; 1e64; 1e96; 1e128; 1e160; 1e192; 1e224; 1e256; 1e288 ]%float.

Definition pow10negtab32 : list float :=
  [ 1e-00; 1e-32; 1e-64; 1e-96; 1e-128; 1e-160; 1e-192; 1e-224; 1e-256;
    1e-288; 1e-320 ]%float.

Definition tab (t : list float) (i : Z) : float := nth (Z.to_nat i) t 0%float.

Definition Pow10 (n : Z) : float :=
  if (0 <=? n) && (n <=? 308) then
    (tab pow10postab32 (n / 32) * tab pow10tab (n mod 32))%float
  else if (-323 <=? n) && (n <=? 0) then
    (tab pow10negtab32 ((- n) / 32) / tab pow10tab ((- n) mod 32))%float
  else if 0 <? n then infinity
  else 0%float.

(** [math/big.Accuracy]. *)
Inductive Accuracy := Below | Exact | Above.

Definition makeAcc (above : bool) : Accuracy := if above then Above else Below.

(** [math/big.Float] by value: a signed zero, a signed infinity, or
    [(-1)^neg * mant * 2^exp].  (Go keeps the mantissa left-aligned in
    machine words and the exponent of its top bit; only the value and the
    number of significant bits matter below.) *)
Inductive Float :=
| FZero (neg : bool)
| FFinite (neg : bool) (mant : positive) (exp : Z)
| FInf (neg : bool).

(** Number of significant bits of a mantissa. *)
Definition bitlen (m : positive) : Z := Z.log2 (Z.pos m) + 1.

(** [Float.round] in mode [ToNearestEven]: keep the top [prec] bits;
    [rbit] is the first dropped bit, [sbit] says whether a lower one is set. *)
Definition round (prec : Z) (m : positive) (e : Z) : Z * Z :=
  let bits := bitlen m in
  if bits <=? prec then (Z.pos m, e)
  else
    let s := bits - prec in
    let r := s - 1 in
    let rbit := Z.testbit (Z.pos m) r in
    let sbit := negb (Z.land (Z.pos m) (Z.ones r) =? 0) in
    let q := Z.shiftr (Z.pos m) s in
    let inc := rbit && (sbit || Z.odd q) in
    ((if inc then q + 1 else q), e + s).

Definition of_rounded (neg : bool) (me : Z * Z) : Float :=
  match me with
  | (Z.pos m, e) => FFinite neg m e
  | _ => FZero neg
  end.

(** [new(big.Float).SetFloat64(x)]: precision 53, the value of [x]
    exactly; panics on a NaN. *)
Definition SetFloat64 (x : float) : result Float :=
  match Prim2SF x with
  | S754_zero s => Ok (FZero s)
  | S754_infinity s => Ok (FInf s)
  | S754_nan => Panic "Float.SetFloat64(NaN)"
  | S754_finite s m e => Ok (FFinite s m e)
  end.

Definition neg_of (x : Float) : bool :=
  match x with FZero n | FFinite n _ _ | FInf n => n end.

(** [z.Mul(x, y)] for a receiver [z] of precision [prec]: the product
    rounded to [prec] bits. *)
Definition Mul (prec : Z) (x y : Float) : result Float :=
  let neg := xorb (neg_of x) (neg_of y) in
  match x, y with
  | FFinite _ mx ex, FFinite _ my ey =>
      Ok (of_rounded neg (round prec (mx * my)%positive (ex + ey)))
  | FZero _, FInf _ | FInf _, FZero _ =>
      Panic "multiplication of zero with infinity"
  | FInf _, _ | _, FInf _ => Ok (FInf neg)
  | _, _ => Ok (FZero neg)
  end.

(** [x.Int(z)]: [x] truncated towards zero ([None] is Go's nil result for
    an infinity) and whether that was exact. *)
Definition Int (x : Float) : option Z * Accuracy :=
  match x with
  | FZero _ => (Some 0, Exact)
  | FInf neg => (None, makeAcc neg)
  | FFinite neg m e =>
      let sign := if neg then -1 else 1 in
      if 0 <=? e then (Some (sign * Z.shiftl (Z.pos m) e), Exact)
      else
        let q := Z.shiftr (Z.pos m) (- e) in
        if Z.land (Z.pos m) (Z.ones (- e)) =? 0
        then (Some (sign * q), Exact)
        else (Some (sign * q), makeAcc neg)
  end.

(** The value of a [big.Float] and of a finite [float64] as a rational. *)
Definition pow2Q (e : Z) : Q :=
  if 0 <=? e then inject_Z (2 ^ e) else Qmake 1 (Z.to_pos (2 ^ (- e))).

Definition Float_value (x : Float) : option Q :=
  match x with
  | FZero _ => Some 0%Q
  | FFinite neg m e =>
      Some (inject_Z (if neg then Z.neg m else Z.pos m) * pow2Q e)%Q
  | FInf _ => None
  end.

Definition float64_value (x : float) : option Q :=
  match SetFloat64 x with Ok f => Float_value f | _ => None end.

End Go.

(** A rational is integral when its denominator divides its numerator. *)
Definition Qintegral (q : Q) : bool := (Qnum q mod Z.pos (Qden q) =? 0).

(** A finite float64 that is not negative (either zero counts). *)
Definition finite_nonneg (x : float) : bool :=
  match Prim2SF x with
  | S754_zero _ => true
  | S754_finite false _ _ => true
  | _ => false
  end.


(** ** [strconv.Atoi] and [big.Int.SetString] in base 10 *)

Module strconv.

Definition digit_value (c : ascii) : option Z :=
  let n := Z.of_N (N_of_ascii c) in
  if (48 <=? n) && (n <=? 57) then Some (n - 48) else None.

(** The digits of [s] read left to right onto [acc]; [None] at the first
    byte that is no digit. *)
Fixpoint digits (acc : Z) (s : string) : option Z :=
  match s with
  | EmptyString => Some acc
  | String c rest =>
      match digit_value c with
      | Some d => digits (acc * 10 + d) rest
      | None => None
      end
  end.

(** An optional sign and then at least one digit. *)
Definition signed_decimal (s : string) : option Z :=
  match s with
  | EmptyString => None
  | String c rest =>
      let '(neg, body) :=
        if Ascii.eqb c "-" then (true, rest)
        else if Ascii.eqb c "+" then (false, rest)
        else (false, s) in
      match body with
      | EmptyString => None
      | _ => option_map (fun n => if neg then - n else n) (digits 0 body)
      end
  end.

(** [strconv.Atoi] with a 64-bit [int]: a syntax error, a range error, or
    the number. *)
Definition Atoi (s : string) : result Z :=
  match signed_decimal s with
  | None => Err "strconv.Atoi: invalid syntax"
  | Some n =>
      if (- 2 ^ 63 <=? n) && (n <? 2 ^ 63) then Ok n
      else Err "strconv.Atoi: value out of range"
  end.

(** [new(big.Int).SetString(s, 10)]: the number, or [None] for Go's
    [ok == false]. *)
Definition SetString10 (s : string) : option Z := signed_decimal s.

End strconv.

(** ** The service API's types the examples use *)

(** Modelled from the spec: the generated models ([service.ChainActivity],
    [service.PreparedTx], [service.Log], [service.UserError],
    [service.Error] and their wallet twins) are not among the sources; the
    records below carry exactly the fields the examples read, under the
    names the examples use. *)
Module service.

Record MethodParameters := {
  To : string;
  Calldata : string;
  Value : string;
}.

Record PreparedTx := {
  Label : gmap string string;
  MethodParameters_ : MethodParameters;
  GasUseEstimate : Z;
}.

(** A step holds a union; [AsPreparedTx] is what [step.Data.AsPreparedTx()]
    returns for it. *)
Record Step := { AsPreparedTx : result PreparedTx }.

Record ChainActivity := {
  NumberOfSteps : Z;
  StepNumber : Z;
  Steps : list Step;
}.

(** [Decoded] is a pointer to a map in the code ([*log.Decoded]). *)
Record Log := {
  Contract : string;
  Decoded : option (gmap string string);
}.

Record UserMessage_ := {
  UserMessage : string;
  Solutions : list string;
}.

Record UserError := { Messages : gmap string UserMessage_ }.

Record Error := {
  Msg : string;
  Reasons : list string;
}.

End service.

(** ** Ethereum-side values *)

(** [types.NewTransaction(nonce, to, amount, gasLimit, gasPrice, data)]. *)
Record Transaction := NewTransaction {
  tx_nonce : Z;
  tx_to : string;
  tx_amount : Z;
  tx_gasLimit : Z;
  tx_gasPrice : Z;
  tx_data : string;
}.

(** A signed transaction: what was signed, for which chain, and the text of
    its hash ([signedTx.Hash().Hex()]). *)
Record SignedTx := {
  signed : Transaction;
  signed_chainID : Z;
  Hash_Hex : string;
}.

Record Receipt := {
  Status : Z;
  BlockNumber : Z;
}.

(** ** The transaction log's entries *)

Record EthereumTransaction := {
  From : string;
  To : string;
  Value : Z;
  Gas : Z;
  GasPrice : Z;
  Nonce : Z;
  ChainID : Z;
  Data : string;
}.

Record TransactionDetails := {
  Timestamp : string;
  Tx : EthereumTransaction;
  TxHash : string;
  VaultID : Z;
}.

Definition set_VaultID (d : TransactionDetails) (vaultId : Z) : TransactionDetails :=
  {| Timestamp := Timestamp d; Tx := Tx d; TxHash := TxHash d; VaultID := vaultId |}.

(** ** Everything outside the process *)

(** The request bodies of the two step-plan endpoints. *)
Record CreateVaultTxRequest := {
  CollateralAmount : string;
  MintAmount : string;
  create_User : string;
  IlkName : string;
}.

Record RepayZarTxRequest := {
  Amount : option string;
  repay_User : string;
  VaultId : Z;
}.

(** The remote API, the Ethereum node, the clock and the JSON library.
    [W] is the state of the world outside the process; a call may read and
    change it.  API calls are given with [HandleAPIResponse] already applied
    to their response (the classifier itself is modelled further down).
    Times and durations are in nanoseconds. *)
Class Env := {
  W : Type;
  (* service API *)
  GetAllIlks : W -> result (list string) * W;
  CreateStableCoinVault : CreateVaultTxRequest -> W -> result service.ChainActivity * W;
  RepayZarTransaction : RepayZarTxRequest -> W -> result service.ChainActivity * W;
  GetLogsByTransactionHash : string -> W -> result (list service.Log) * W;
  (* Ethereum node and signing *)
  PendingNonceAt : string -> W -> result Z * W;
  SuggestGasPrice : W -> result Z * W;
  SignTx : Transaction -> Z -> result string;
  SendTransaction : SignedTx -> W -> option string * W;
  TransactionReceipt : string -> W -> result Receipt * W;
  HexToAddress : string -> string;
  HexToHash : string -> string;
  hexutil_Decode : string -> result string;
  (* time *)
  now : W -> Z;
  Sleep : Z -> W -> W;
  Now_RFC3339 : W -> string;
  (* encoding/json on the transaction log *)
  MarshalIndent : list TransactionDetails -> string;
  Decoder_Decode : string -> result (list TransactionDetails);
  Unmarshal : string -> result (list TransactionDetails);
}.

(** A file: its bytes and whether this process may read and rewrite it. *)
Record File := {
  content : string;
  readable : bool;
  writable : bool;
}.

(** The process sees the world and the files of its working directory. *)
Record State `{Env} := {
  world : W;
  fs : gmap string File;
}.

(** What the examples print and do, in order. *)
Inductive Event :=
| Printed (text : string)
| Labelled (number : Z) (label : string)
| Signed (number : Z) (tx : SignedTx)
| Broadcast (number : Z) (tx : SignedTx).

(** How a run of example code ends: it returns, [log.Fatalf] ends the
    process, it panics, or the model's fuel ran out before it ended. *)
Inductive exit (A : Type) : Type :=
| Return (a : A)
| Fatal (msg : string)
| Panicked (msg : string)
| OutOfFuel.
Arguments Return {A} a.
Arguments Fatal {A} msg.
Arguments Panicked {A} msg.
Arguments OutOfFuel {A}.

(** Example code: from a state to an exit, the new state and the events. *)
Definition M `{Env} (A : Type) : Type := State -> exit A * State * list Event.

Section Monad.
Context `{Env}.

Definition ret {A} (a : A) : M A := fun st => (Return a, st, []).

Definition bind {A B} (m : M A) (f : A -> M B) : M B :=
  fun st =>
    match m st with
    | (Return a, st', evs) =>
        let '(r, st'', evs') := f a st' in (r, st'', evs ++ evs')
    | (Fatal msg, st', evs) => (Fatal msg, st', evs)
    | (Panicked msg, st', evs) => (Panicked msg, st', evs)
    | (OutOfFuel, st', evs) => (OutOfFuel, st', evs)
    end.

Definition emit (e : Event) : M unit := fun st => (Return tt, st, [e]).

(** [log.Fatalf]. *)
Definition Fatalf {A} (msg : string) : M A := fun st => (Fatal msg, st, []).

(** A call into the world. *)
Definition call {A} (f : W -> A * W) : M A :=
  fun st => let '(a, w) := f (world st) in
            (Return a, {| world := w; fs := fs st |}, []).

Definition get_world : M W := fun st => (Return (world st), st, []).

Definition get_fs : M (gmap string File) := fun st => (Return (fs st), st, []).

Definition put_fs (fs' : gmap string File) : M unit :=
  fun st => (Return tt, {| world := world st; fs := fs' |}, []).

(** [x, err := f(); if err != nil { log.Fatalf(msg, err) }]; a panic of
    the callee goes on. *)
Definition orFatal {A} (msg : string) (r : result A) : M A :=
  match r with
  | Ok a => ret a
  | Err e => Fatalf (msg +:+ e)
  | Panic e => fun st => (Panicked e, st, [])
  end.

End Monad.

Declare Scope go_scope.
Delimit Scope go_scope with go.
Notation "'let*' x ':=' m 'in' k" := (bind m (fun x => k))
  (at level 10, x pattern, m at level 100, k at level 200) : go_scope.
Notation "'run' m 'in' k" := (bind m (fun _ => k))
  (at level 10, m at level 100, k at level 200) : go_scope.
#[local] Open Scope go_scope.

(** ** Machine integers and durations *)

(** A value of Go's [int] or [int64] after an operation that may wrap. *)
Definition int64 (z : Z) : Z := (z + 2 ^ 63) mod 2 ^ 64 - 2 ^ 63.

(** [uint64(x)]. *)
Definition uint64 (z : Z) : Z := z mod 2 ^ 64.

Definition Second : Z := 1000000000.
Definition Minute : Z := 60 * Second.

(** [time.Since(start)]: the elapsed time, kept within a [Duration]. *)
Definition Since `{Env} (w : W) (start : Z) : Z :=
  Z.min (2 ^ 63 - 1) (Z.max (- 2 ^ 63) (now w - start)).

(** ** The files of the working directory *)

Module os.

(** [os.Open] and [os.ReadFile]: the bytes, or why not. *)
Inductive opened := Bytes (data : string) | NotExist | OtherError (msg : string).

Definition Open (files : gmap string File) (name : string) : opened :=
  match files !! name with
  | None => NotExist
  | Some f => if readable f then Bytes (content f) else OtherError "permission denied"
  end.

(** [os.Create] or [os.WriteFile] followed by a successful write of
    [data]: the file is replaced as a whole, unless it exists and must
    not be written. *)
Definition WriteFile (files : gmap string File) (name data : string)
  : result (gmap string File) :=
  match files !! name with
  | None => Ok (<[ name := {| content := data; readable := true; writable := true |} ]> files)
  | Some f =>
      if writable f
      then Ok (<[ name := {| content := data; readable := readable f; writable := true |} ]> files)
      else Err "permission denied"
  end.

End os.

(** ** The response classifier *)

(** An HTTP response as [HandleAPIResponse] reads it: the status code, what
    [io.ReadAll(resp.Body)] returns, the X-Request-ID header, and the path
    and method of the request. *)
Module http.

Record Response := {
  StatusCode : Z;
  Body : result string;
  X_Request_ID : string;
  Request_URL_Path : string;
  Request_Method : string;
}.

Definition StatusInternalServerError : Z := 500.

End http.

(** [json.Unmarshal(data, &v)] for values of type [T]: the new value of
    [v], and the error ([None] is nil).  [zero] is Go's zero value. *)
Class JSON (T : Type) := {
  zero : T;
  json_Unmarshal : string -> T -> T * option string;
}.

(** The [Details interface{}] field holds nil, a string, a [UserError] or
    an [Error]. *)
Inductive details :=
| NoDetails
| DetailsText (text : string)
| DetailsUserError (userError : service.UserError)
| DetailsError (genericError : service.Error).

(** What the classifier does to the response, in order. *)
Inductive Op :=
| ReadAll
| UnmarshalSuccess
| UnmarshalUserError
| UnmarshalError
| Close.

#[global] Instance Op_eq_dec : EqDecision Op.
Proof. solve_decision. Defined.

(** How often [o] occurs among the operations [ops]. *)
Definition times (o : Op) (ops : list Op) : nat := count_occ Op_eq_dec ops o.

(** service/utils.go (wallet/utils.go is its twin over the wallet types). *)
Module Service.

Record APIError := {
  StatusCode : Z;
  Message : string;
  Details : details;
  RequestID : string;
  Path : string;
  Method : string;
  ErrorContext : option (gmap string string);
}.

Section Handle.
Context {T : Type} `{JSON T} `{JSON service.UserError} `{JSON service.Error}.

(** [HandleAPIResponse(ctx, resp, successResponse)]: the caller's
    success value afterwards, the error ([None] is nil), and the
    operations on the response ([resp == nil] is [None]). *)
Definition HandleAPIResponse (resp : option http.Response) (successResponse : T)
  : T * option APIError * list Op :=
  match resp with
  | None =>
      (successResponse,
       Some {| StatusCode := http.StatusInternalServerError;
               Message := "nil response received"; Details := NoDetails;
               RequestID := ""; Path := ""; Method := ""; ErrorContext := None |},
       [])
  | Some resp =>
      let requestID := http.X_Request_ID resp in
      let path := http.Request_URL_Path resp in
      let method := http.Request_Method resp in
      match http.Body resp with
      | Err err | Panic err =>
          (successResponse,
           Some {| StatusCode := http.StatusInternalServerError;
                   Message := "failed to read response body"; Details := DetailsText err;
                   RequestID := requestID; Path := path; Method := method;
                   ErrorContext := None |},
           [ReadAll; Close])
      | Ok bodyBytes =>
          if (200 <=? http.StatusCode resp) && (http.StatusCode resp <? 300) then
            match json_Unmarshal bodyBytes successResponse with
            | (v, Some err) =>
                (v,
                 Some {| StatusCode := http.StatusCode resp;
                         Message := "failed to parse success response";
                         Details := DetailsText err;
                         RequestID := requestID; Path := path; Method := method;
                         ErrorContext := None |},
                 [ReadAll; UnmarshalSuccess; Close])
            | (v, None) => (v, None, [ReadAll; UnmarshalSuccess; Close])
            end
          else
            let apiError (message : string) (d : details) :=
              {| StatusCode := http.StatusCode resp; Message := message; Details := d;
                 RequestID := requestID; Path := path; Method := method;
                 ErrorContext := None |} in
            let '(userError, err) := json_Unmarshal bodyBytes (zero (T := service.UserError)) in
            if bool_decide (err = None) && (0 <? size (service.Messages userError))%nat then
              (successResponse,
               Some (apiError "User error" (DetailsUserError userError)),
               [ReadAll; UnmarshalUserError; Close])
            else
              let '(genericError, err) := json_Unmarshal bodyBytes (zero (T := service.Error)) in
              if bool_decide (err = None) && negb (String.eqb (service.Msg genericError) "") then
                (successResponse,
                 Some (apiError (service.Msg genericError) (DetailsError genericError)),
                 [ReadAll; UnmarshalUserError; UnmarshalError; Close])
              else
                (successResponse,
                 Some (apiError "Unhandled error" (DetailsText bodyBytes)),
                 [ReadAll; UnmarshalUserError; UnmarshalError; Close])
      end
  end.

End Handle.

End Service.

(** examples/errorHandler.go. *)
Module Examples.

Record APIError := {
  StatusCode : Z;
  Message : string;
  Details : details;
}.

(** Go's [error] here: a [fmt.Errorf] text or an [*APIError]. *)
Inductive error :=
| Errorf (text : string)
| API (e : APIError).

Section Handle.
Context {T : Type} `{JSON T} `{JSON service.UserError} `{JSON service.Error}.

(** [HandleAPIResponse(resp, successResponse)].  A nil [resp] panics
    at the deferred [resp.Body.Close()]. *)
Definition HandleAPIResponse (resp : option http.Response) (successResponse : T)
  : result (T * option error * list Op) :=
  match resp with
  | None => Panic "invalid memory address or nil pointer dereference"
  | Some resp =>
      Ok
        match http.Body resp with
        | Err err | Panic err =>
            (successResponse, Some (Errorf ("failed to read response body: " +:+ err)),
             [ReadAll; Close])
        | Ok bodyBytes =>
            if (200 <=? http.StatusCode resp) && (http.StatusCode resp <? 300) then
              match json_Unmarshal bodyBytes successResponse with
              | (v, Some err) =>
                  (v, Some (Errorf ("failed to parse success response: " +:+ err)),
                   [ReadAll; UnmarshalSuccess; Close])
              | (v, None) => (v, None, [ReadAll; UnmarshalSuccess; Close])
              end
            else
              let '(userError, err) :=
                json_Unmarshal bodyBytes (zero (T := service.UserError)) in
              if bool_decide (err = None) && (0 <? size (service.Messages userError))%nat then
                (successResponse,
                 Some (API {| StatusCode := http.StatusCode resp; Message := "User error";
                              Details := DetailsUserError userError |}),
                 [ReadAll; UnmarshalUserError; Close])
              else
                let '(genericError, err) :=
                  json_Unmarshal bodyBytes (zero (T := service.Error)) in
                if bool_decide (err = None)
                   && negb (String.eqb (service.Msg genericError) "") then
                  (successResponse,
                   Some (API {| StatusCode := http.StatusCode resp; Message := "API error";
                                Details := DetailsError genericError |}),
                   [ReadAll; UnmarshalUserError; UnmarshalError; Close])
                else
                  (successResponse,
                   Some (API {| StatusCode := http.StatusCode resp;
                                Message := "Unhandled error";
                                Details := DetailsText bodyBytes |}),
                   [ReadAll; UnmarshalUserError; UnmarshalError; Close])
        end
  end.

End Handle.

End Examples.

(** The three kinds of classified error the specification names. *)
Inductive ErrorKind :=
| UserError (messages : gmap string service.UserMessage_)
| APIError (msg : string) (reasons : list string)
| UnhandledError (raw : string).

Definition kind_of_details (d : details) : option ErrorKind :=
  match d with
  | NoDetails => None
  | DetailsText text => Some (UnhandledError text)
  | DetailsUserError u => Some (UserError (service.Messages u))
  | DetailsError e => Some (APIError (service.Msg e) (service.Reasons e))
  end.

(** How a body classifies: the user-error shape with a message first, the
    generic shape with a non-empty [msg] second, the raw text last. *)
Definition classify `{JSON service.UserError} `{JSON service.Error} (body : string)
  : ErrorKind :=
  let '(u, eu) := json_Unmarshal body (zero (T := service.UserError)) in
  let '(g, eg) := json_Unmarshal body (zero (T := service.Error)) in
  if bool_decide (eu = None) && (0 <? size (service.Messages u))%nat
  then UserError (service.Messages u)
  else if bool_decide (eg = None) && negb (String.eqb (service.Msg g) "")
  then APIError (service.Msg g) (service.Reasons g)
  else UnhandledError body.

(** ** The methods of [service.APIError] and the printer (service/utils.go) *)

Module ServiceError.

Definition StatusUnauthorized : Z := 401.
Definition StatusForbidden : Z := 403.
Definition StatusNotFound : Z := 404.

(** [WithContext(key, value)]: the map is made when it is nil, the entry
    is set, the receiver is returned.  (A value of type [interface{}] is
    kept as the text [%v] prints for it, which is all the package does
    with it.) *)
Definition WithContext (e : Service.APIError) (key value : string) : Service.APIError :=
  {| Service.StatusCode := Service.StatusCode e;
     Service.Message := Service.Message e;
     Service.Details := Service.Details e;
     Service.RequestID := Service.RequestID e;
     Service.Path := Service.Path e;
     Service.Method := Service.Method e;
     Service.ErrorContext :=
       Some (<[ key := value ]> (default ∅ (Service.ErrorContext e))) |}.

Definition IsNotFound (e : Service.APIError) : bool :=
  Service.StatusCode e =? StatusNotFound.

Definition IsUnauthorized (e : Service.APIError) : bool :=
  Service.StatusCode e =? StatusUnauthorized.

Definition IsForbidden (e : Service.APIError) : bool :=
  Service.StatusCode e =? StatusForbidden.

Definition IsClientError (e : Service.APIError) : bool :=
  (400 <=? Service.StatusCode e) && (Service.StatusCode e <? 500).

Definition IsServerError (e : Service.APIError) : bool :=
  (500 <=? Service.StatusCode e) && (Service.StatusCode e <? 600).

Definition nl : string := String "010" "".

(** The first six lines of every report. *)
Definition header (e : Service.APIError) : string :=
  "API Error Report" +:+ nl
  +:+ "---------------" +:+ nl
  +:+ "Status:     " +:+ Go.Int_String (Service.StatusCode e) +:+ nl
  +:+ "Request ID: " +:+ Service.RequestID e +:+ nl
  +:+ "Path:       " +:+ Service.Method e +:+ " " +:+ Service.Path e +:+ nl
  +:+ "Message:    " +:+ Service.Message e +:+ nl.

(** One [- %s] line per element. *)
Definition bullets (items : list string) : string :=
  String.concat "" (map (fun s => "- " +:+ s +:+ nl) items).

Definition context_block (e : Service.APIError) : string :=
  match Service.ErrorContext e with
  | Some ctx =>
      if (0 <? size ctx)%nat then
        nl +:+ "Context:" +:+ nl
        +:+ String.concat ""
              (map (fun kv => "- " +:+ fst kv +:+ ": " +:+ snd kv +:+ nl) (map_to_list ctx))
      else ""
  | None => ""
  end.

(** What the printer writes for one locale of a user error. *)
Definition locale_block (lang : string) (detail : service.UserMessage_) : string :=
  "[" +:+ lang +:+ "]" +:+ nl
  +:+ "Message:   " +:+ service.UserMessage detail +:+ nl
  +:+ (if (0 <? length (service.Solutions detail))%nat
       then "Solutions:" +:+ nl +:+ bullets (service.Solutions detail)
       else "").

(** [PrettyPrintError(err)].  The two [range] loops over maps run in the
    order of one map iteration. *)
Definition PrettyPrintError (e : Service.APIError) : string :=
  header e +:+ context_block e
  +:+ match Service.Details e with
      | DetailsUserError userError =>
          nl +:+ "User Error Details:" +:+ nl
          +:+ String.concat ""
                (map (fun kv => locale_block (fst kv) (snd kv))
                   (map_to_list (service.Messages userError)))
      | DetailsError genericError =>
          nl +:+ "Error Details:" +:+ nl
          +:+ "Message: " +:+ service.Msg genericError +:+ nl
          +:+ (if (0 <? length (service.Reasons genericError))%nat
               then "Reasons:" +:+ nl +:+ bullets (service.Reasons genericError)
               else "")
      | DetailsText text => nl +:+ "Raw Details:" +:+ nl +:+ text +:+ nl
      | NoDetails => nl +:+ "Raw Details:" +:+ nl +:+ "<nil>" +:+ nl
      end.

End ServiceError.

(** [s] occurs in [t] as one piece. *)
Definition occurs_in (s t : string) : Prop :=
  exists before after, t = before +:+ s +:+ after.
(** ** Native amounts: [toNative] *)

(** [service.Symbol] is a string type. *)
Abbreviation Symbol := string (only parsing).

(** The body both examples share after the precision is known
    (vault creation lines 351-364, repayment lines 817-831):
    [SetFloat64] of the amount and of [math.Pow10(p)], [Mul] into the
    53-bit receiver, [Int] with its accuracy, [String]. *)
Definition scaleToNative (p : Z) (amount : float) : result string :=
  match Go.SetFloat64 amount with
  | Ok floatAmount =>
      match Go.SetFloat64 (Go.Pow10 p) with
      | Ok scale =>
          match Go.Mul 53 floatAmount scale with
          | Ok product =>
              match Go.Int product with
              | (Some scaledAmount, Go.Exact) => Ok (Go.Int_String scaledAmount)
              | (_, _) => Err "lost precision during conversion"
              end
          | Err e => Err e
          | Panic e => Panic e
          end
      | Err e => Err e
      | Panic e => Panic e
      end
  | Err e => Err e
  | Panic e => Panic e
  end.


(** ** The transaction log and the confirmation wait (both examples) *)

Section Shared.
Context `{Env}.

(** [SaveTransactionDetails] (vault creation lines 491-531, repayment
    lines 915-955; the two differ in the file's name only).  Returns Go's
    [error]: [None] is nil. *)
Definition SaveTransactionDetailsTo (path : string)
    (tx : EthereumTransaction) (txHash : string) (vaultID : Z) : M (option string) :=
  let* w := get_world in
  let transactionData :=
    {| Timestamp := Now_RFC3339 w; Tx := tx; TxHash := txHash; VaultID := vaultID |} in
  let* files := get_fs in
  let write (existingData : list TransactionDetails) : M (option string) :=
    let existingData := existingData ++ [transactionData] in
    match os.WriteFile files path (MarshalIndent existingData +:+ String "010" "") with
    | Ok files' =>
        run put_fs files' in
        run emit (Printed "Transaction details saved to transaction_log.json") in
        ret None
    | Err e => ret (Some ("failed to create transaction_log.json: " +:+ e))
    | Panic e => fun st => (Panicked e, st, [])
    end in
  match os.Open files path with
  | os.Bytes data =>
      match Decoder_Decode data with
      | Ok existingData => write existingData
      | Err e => ret (Some ("failed to decode existing data: " +:+ e))
      | Panic e => fun st => (Panicked e, st, [])
      end
  | os.NotExist => write []
  | os.OtherError e => ret (Some ("failed to open transaction_log.json: " +:+ e))
  end.

(** The loop of [waitForTransactionReceipt] from its condition on;
    [fuel] bounds the number of receipt queries the model follows.  (The
    printed texts and the error text leave out the formatted number of
    seconds.) *)
Fixpoint waitLoop (fuel : nat) (startTime : Z) (txHash : string)
    (maxWaitTime checkInterval : Z) : M (result Receipt) :=
  let* w := get_world in
  if Since w startTime <? maxWaitTime then
    match fuel with
    | O => fun st => (OutOfFuel, st, [])
    | S fuel' =>
        let* r := call (TransactionReceipt txHash) in
        match r with
        | Ok receipt => ret (Ok receipt)
        | Panic e => fun st => (Panicked e, st, [])
        | Err e =>
            run (if String.eqb e "not found" then ret tt
                 else emit (Printed ("Error checking transaction receipt: " +:+ e))) in
            run emit (Printed ("Waiting for transaction " +:+ txHash +:+ " to be mined...")) in
            run call (fun w => (tt, Sleep checkInterval w)) in
            waitLoop fuel' startTime txHash maxWaitTime checkInterval
        end
    end
  else
    run emit (Printed "Transaction not mined") in
    ret (Err "transaction not mined").

(** [waitForTransactionReceipt] (lines 533-555 and 957-979). *)
Definition waitForTransactionReceipt (fuel : nat) (txHash : string)
    (maxWaitTime checkInterval : Z) : M (result Receipt) :=
  let* w := get_world in
  let startTime := now w in
  waitLoop fuel startTime txHash maxWaitTime checkInterval.

End Shared.

(** What the examples fix as constants or derive before their loops. *)
Record Config := {
  WALLET_ADDRESS : string;
  chainID : Z;
  ILK_NAME : string;
  SYMBOL : string;
  COLLATERAL_AMOUNT : float;
  LOAN_AMOUNT : float;
  VAULT_ID : Z;
  AMOUNT : float;
}.

(** ** The vault creation example *)

Module CreateVault.

(** [getIlksSymbol] after the API call: the symbols of the ilks, each
    once, in the order of a map iteration. *)
Definition getIlksSymbol (ilks : result (list Symbol)) : result (list Symbol) :=
  match ilks with
  | Ok data => Ok (elements (foldl (fun set s => {[ s ]} ∪ set) (∅ : gset string) data))
  | Err e => Err e
  | Panic e => Panic e
  end.

(** The precision map of [toNative]: ZAR and every ilk symbol at 18. *)
Definition precision (symbols : list Symbol) : gmap string Z :=
  foldl (fun m s => <[ s := 18 ]> m) {[ "ZAR" := 18 ]} symbols.

(** [toNative(client, symbol, amount)]; [ilks] is what the client's
    [GetAllIlks] call decodes to. *)
Definition toNative (ilks : result (list Symbol)) (symbol : Symbol) (amount : float)
  : result string :=
  match getIlksSymbol ilks with
  | Ok symbols =>
      match precision symbols !! symbol with
      | Some p => scaleToNative p amount
      | None => Err ("unknown symbol: " +:+ symbol)
      end
  | Err e => Err ("failed to get symbols: " +:+ e)
  | Panic e => Panic e
  end.

(** [getVaultId] (lines 455-471). *)
Fixpoint getVaultId (logs : list service.Log) : result Z :=
  match logs with
  | [] => Ok 0
  | log :: rest =>
      if String.eqb (service.Contract log) "Cdpmanager" then
        match service.Decoded log with
        | None => Panic "invalid memory address or nil pointer dereference"
        | Some payload =>
            match payload !! "Cdp" with
            | None => Err "failed to get vault id from log"
            | Some vaultIdStr =>
                match strconv.Atoi vaultIdStr with
                | Ok vaultId => Ok vaultId
                | _ => Err "failed to convert vault id to int"
                end
            end
        end
      else getVaultId rest
  end.

Definition log_file : string := "transaction_log.json".

Section Run.
Context `{Env}.
Variable cfg : Config.
Variable fuel : nat.

Definition SaveTransactionDetails := SaveTransactionDetailsTo log_file.

(** [getVaultTxSteps] (lines 367-413). *)
Definition getVaultTxSteps : M (result service.ChainActivity) :=
  let* ilks := call GetAllIlks in
  let* nativeCollateralAmount :=
    orFatal "Error converting collateral amount: "
      (toNative ilks (SYMBOL cfg) (COLLATERAL_AMOUNT cfg)) in
  let* ilks' := call GetAllIlks in
  let* nativeLoanAmount :=
    orFatal "Error converting loan amount: "
      (toNative ilks' "ZAR" (LOAN_AMOUNT cfg)) in
  let request :=
    {| CollateralAmount := nativeCollateralAmount;
       MintAmount := nativeLoanAmount;
       create_User := WALLET_ADDRESS cfg;
       IlkName := ILK_NAME cfg |} in
  call (CreateStableCoinVault request).

(** Lines 644-716: the branch taken for the step at [stepNumber]. *)
Definition submitStep (number : Z) (data : service.PreparedTx) : M string :=
  run emit (Printed "processing...") in
  let methodParams := service.MethodParameters_ data in
  let addressTo := service.To methodParams in
  let calldata := service.Calldata methodParams in
  let valueStr := service.Value methodParams in
  let* value :=
    match strconv.Atoi valueStr with
    | Ok value => ret value
    | _ => Fatalf "failed to convert vault id to int"
    end in
  let* nonce' := call (PendingNonceAt (HexToAddress (WALLET_ADDRESS cfg))) in
  let* nonce := orFatal "Failed to get transaction count: " nonce' in
  let gas := service.GasUseEstimate data in
  let* gasPrice' := call SuggestGasPrice in
  let* gasPrice := orFatal "Failed to get gas price: " gasPrice' in
  let tx := NewTransaction nonce (HexToAddress addressTo) (int64 value)
              (uint64 gas) gasPrice calldata in
  let txToSave :=
    {| From := WALLET_ADDRESS cfg; To := addressTo; Value := value; Gas := gas;
       GasPrice := gasPrice; Nonce := nonce; ChainID := chainID cfg;
       Data := calldata |} in
  let* hash := orFatal "Failed to sign the transaction: " (SignTx tx (chainID cfg)) in
  let signedTx := {| signed := tx; signed_chainID := chainID cfg; Hash_Hex := hash |} in
  run emit (Signed number signedTx) in
  run emit (Broadcast number signedTx) in
  let* err := call (SendTransaction signedTx) in
  run (match err with Some e => Fatalf ("Failed to send transaction: " +:+ e)
                    | None => ret tt end) in
  let txHash := Hash_Hex signedTx in
  run emit (Printed ("Transaction sent: " +:+ txHash)) in
  let* err := SaveTransactionDetails txToSave txHash (-1) in
  run (match err with Some e => Fatalf ("Failed to save transaction details: " +:+ e)
                    | None => ret tt end) in
  let* r := waitForTransactionReceipt fuel (HexToHash txHash)
              (120 * Second) (15 * Second) in
  let* receipt :=
    match r with
    | Ok receipt => ret receipt
    | Err _ =>
        Fatalf ("Transaction " +:+ txHash +:+ " was not mined within the timeout period.")
    | Panic e => fun st => (Panicked e, st, [])
    end in
  run (if Status receipt =? 0
       then Fatalf ("Transaction " +:+ txHash +:+ " failed")
       else ret tt) in
  run emit (Printed ("Transaction " +:+ txHash +:+ " was mined")) in
  ret txHash.

(** Lines 634-718: [for number, step := range steps], from position
    [number] on; returns the last value of [txHash]. *)
Fixpoint processSteps (stepNumber : Z) (number : Z) (steps : list service.Step)
    (txHash : string) : M string :=
  match steps with
  | [] => ret txHash
  | step :: rest =>
      let* data := orFatal "Failed to convert step to prepared tx: "
                     (service.AsPreparedTx step) in
      run emit (Labelled (number + 1) (default "" (service.Label data !! "en-US"))) in
      let* txHash' :=
        if int64 (stepNumber - 1) =? number
        then submitStep number data
        else ret txHash in
      processSteps stepNumber (number + 1) rest txHash'
  end.

(** Lines 736-769: read the log, set the last entry's vault id, write
    the log back. *)
Definition patchLastVaultId (vaultId : Z) : M unit :=
  let* files := get_fs in
  let* data :=
    match os.Open files log_file with
    | os.Bytes data => ret data
    | os.NotExist => Fatalf "Error reading file: no such file or directory"
    | os.OtherError e => Fatalf ("Error reading file: " +:+ e)
    end in
  let* transactions := orFatal "Error unmarshalling JSON: " (Unmarshal data) in
  let* transactions :=
    match length transactions with
    | O => run emit (Printed "No transactions found to update.") in ret transactions
    | S n => ret (alter (fun d => set_VaultID d vaultId) n transactions)
    end in
  let updatedData := MarshalIndent transactions in
  let* files' := orFatal "Error writing to file: " (os.WriteFile files log_file updatedData) in
  run put_fs files' in
  emit (Printed "Transaction details updated successfully.").

(** Lines 618-770: one iteration of the outer loop. *)
Definition iteration : M unit :=
  let* r := getVaultTxSteps in
  let* vaultSteps := orFatal "Failed to get vault creartion steps: " r in
  let numberOf := service.NumberOfSteps vaultSteps in
  let stepNumber := service.StepNumber vaultSteps in
  let steps := service.Steps vaultSteps in
  let* txHash := processSteps stepNumber 0 steps "" in
  if numberOf =? stepNumber then
    let* logs' := call (GetLogsByTransactionHash txHash) in
    let* logs := orFatal "Failed to get logs: " logs' in
    let* vaultId := orFatal "Failed to vault id: " (getVaultId logs) in
    run emit (Printed "Vault was created successfully.") in
    patchLastVaultId vaultId
  else ret tt.

(** Line 617: [for s := 0; s <= numOfSteps - stepNumber; s+:+], from
    [s] on.  The body declares its own [stepNumber] with [:=], so the
    bound stays the one of the first poll.  Returns how many times
    the body ran. *)
Fixpoint loop (fuel' : nat) (numOfSteps stepNumber : Z) (s : Z) (ran : nat) : M nat :=
  if s <=? int64 (numOfSteps - stepNumber) then
    match fuel' with
    | O => fun st => (OutOfFuel, st, [])
    | S fuel'' =>
        run iteration in
        loop fuel'' numOfSteps stepNumber (int64 (s + 1)) (S ran)
    end
  else ret ran.

(** [CreateVaultExample] from its first poll on (lines 600-776); the
    key, the clients and the chain id are in [cfg] and the world. *)
Definition CreateVaultExample : M nat :=
  let* r := getVaultTxSteps in
  let* vaultSteps := orFatal "Failed to get vault creartion steps: " r in
  let numOfSteps := service.NumberOfSteps vaultSteps in
  let stepNumber := service.StepNumber vaultSteps in
  let steps := service.Steps vaultSteps in
  if (0 <? length steps)%nat then loop fuel numOfSteps stepNumber 0 0
  else run emit (Printed "No steps found in the response.") in ret O.

End Run.

End CreateVault.

(** ** The vault repayment example *)

Module RepayVault.

(** [toNative(amount)] (lines 816-832): always 18 decimals. *)
Definition toNative (amount : float) : result string := scaleToNative 18 amount.

Definition log_file : string := "repay_transaction_log.json".

Section Run.
Context `{Env}.
Variable cfg : Config.
Variable fuel : nat.

Definition SaveTransactionDetails := SaveTransactionDetailsTo log_file.

(** [getVaultTxSteps] (lines 834-875). *)
Definition getVaultTxSteps : M (result service.ChainActivity) :=
  let* nativeAmount :=
    if (0 <? AMOUNT cfg)%float then
      let* a := orFatal "Error converting collateral amount: " (toNative (AMOUNT cfg)) in
      ret (Some a)
    else ret None in
  let request :=
    {| Amount := nativeAmount; repay_User := WALLET_ADDRESS cfg;
       VaultId := VAULT_ID cfg |} in
  call (RepayZarTransaction request).

(** Lines 1057-1124: the branch taken for the step at [stepNumber]. *)
Definition submitStep (number : Z) (data : service.PreparedTx) : M string :=
  run emit (Printed "Processing...") in
  let methodParams := service.MethodParameters_ data in
  let addressTo := service.To methodParams in
  let calldata := service.Calldata methodParams in
  let valueStr := service.Value methodParams in
  let* value :=
    match strconv.SetString10 valueStr with
    | Some value => ret value
    | None => Fatalf "failed to convert value to bigint"
    end in
  let* nonce' := call (PendingNonceAt (HexToAddress (WALLET_ADDRESS cfg))) in
  let* nonce := orFatal "Failed to get nonce: " nonce' in
  let gas := service.GasUseEstimate data in
  let* gasPrice' := call SuggestGasPrice in
  let* gasPrice := orFatal "Failed to get gas price: " gasPrice' in
  let gasPrice := gasPrice * 110 in
  let gasPrice := gasPrice / 100 in
  let* calldataBytes := orFatal "Failed to decode calldata: " (hexutil_Decode calldata) in
  let tx := NewTransaction nonce (HexToAddress addressTo) value
              (uint64 gas) gasPrice calldataBytes in
  let txToSave :=
    {| From := WALLET_ADDRESS cfg; To := addressTo; Value := value; Gas := gas;
       GasPrice := gasPrice; Nonce := nonce; ChainID := chainID cfg;
       Data := calldata |} in
  let* hash := orFatal "Failed to sign the transaction: " (SignTx tx (chainID cfg)) in
  let signedTx := {| signed := tx; signed_chainID := chainID cfg; Hash_Hex := hash |} in
  run emit (Signed number signedTx) in
  run emit (Broadcast number signedTx) in
  let* err := call (SendTransaction signedTx) in
  run (match err with Some e => Fatalf ("Failed to send transaction: " +:+ e)
                    | None => ret tt end) in
  let txHash := Hash_Hex signedTx in
  let* err := SaveTransactionDetails txToSave txHash (VAULT_ID cfg) in
  run (match err with Some e => Fatalf ("Failed to save transaction details: " +:+ e)
                    | None => ret tt end) in
  let* r := waitForTransactionReceipt fuel txHash (1 * Minute) (5 * Second) in
  match r with
  | Ok receipt =>
      run emit (Printed ("Transaction " +:+ txHash +:+ " was mined")) in
      ret txHash
  | Err e =>
      (* log.Printf, then [continue] with the next step *)
      run emit (Printed ("Transaction " +:+ txHash +:+ " was not mined: " +:+ e)) in
      ret txHash
  | Panic e => fun st => (Panicked e, st, [])
  end.

(** Lines 1048-1126: [for i, step := range steps], from position
    [number] on. *)
Fixpoint processSteps (stepNumber : Z) (number : Z) (steps : list service.Step)
    (txHash : string) : M string :=
  match steps with
  | [] => ret txHash
  | step :: rest =>
      let* data := orFatal "Failed to convert step to prepared tx: "
                     (service.AsPreparedTx step) in
      run emit (Labelled (number + 1) (default "" (service.Label data !! "en-US"))) in
      let* txHash' :=
        if int64 (stepNumber - 1) =? number
        then submitStep number data
        else ret txHash in
      processSteps stepNumber (number + 1) rest txHash'
  end.

(** Lines 1034-1126: one iteration of the outer loop.  It assigns to
    the variables of the loop condition ([=], not [:=]) and so returns
    their new values. *)
Definition iteration : M (Z * Z) :=
  let* r := getVaultTxSteps in
  let* vaultSteps := orFatal "Failed to get vault repayment steps: " r in
  let numOfSteps := service.NumberOfSteps vaultSteps in
  let stepNumber := service.StepNumber vaultSteps in
  let steps := service.Steps vaultSteps in
  let* _ := processSteps stepNumber 0 steps "" in
  ret (numOfSteps, stepNumber).

(** Line 1033: [for s := 0; s <= numOfSteps - stepNumber; s++], from
    [s] on, with the current values of the two variables.  Returns how
    many times the body ran. *)
Fixpoint loop (fuel' : nat) (numOfSteps stepNumber : Z) (s : Z) (ran : nat) : M nat :=
  if s <=? int64 (numOfSteps - stepNumber) then
    match fuel' with
    | O => fun st => (OutOfFuel, st, [])
    | S fuel'' =>
        let* vars := iteration in
        loop fuel'' (fst vars) (snd vars) (int64 (s + 1)) (S ran)
    end
  else ret ran.

(** [VaultDebtRepayExample] from its first poll on (lines 1018-1131). *)
Definition VaultDebtRepayExample : M nat :=
  let* r := getVaultTxSteps in
  let* vaultSteps := orFatal "Failed to get vault repayment steps: " r in
  let numOfSteps := service.NumberOfSteps vaultSteps in
  let stepNumber := service.StepNumber vaultSteps in
  let steps := service.Steps vaultSteps in
  if (0 <? length steps)%nat then loop fuel numOfSteps stepNumber 0 0
  else Fatalf "No steps found in vault repayment transaction".

End Run.

End RepayVault.

(** ** Notions the specification uses *)

(** The product the specification speaks of: amount times [10^p], exactly. *)
Definition exact_product (p : Z) (amount : float) : option Q :=
  match Go.float64_value amount with
  | Some v => Some (v * inject_Z (10 ^ p))%Q
  | None => None
  end.

(** The product [toNative] converts: rounded to 53 bits by [Mul]. *)
Definition rounded_product (p : Z) (amount : float) : option Q :=
  match Go.SetFloat64 amount, Go.SetFloat64 (Go.Pow10 p) with
  | Ok x, Ok s =>
      match Go.Mul 53 x s with
      | Ok r => Go.Float_value r
      | _ => None
      end
  | _, _ => None
  end.

(** Minimal decimal text of a natural number: digits only, and no leading
    zero unless the text is [0]. *)
Definition is_digit (c : ascii) : bool :=
  let n := N_of_ascii c in ((48 <=? n) && (n <=? 57))%N.

Definition minimal_decimal (s : string) : bool :=
  match s with
  | EmptyString => false
  | String c rest =>
      forallb is_digit (list_ascii_of_string s)
      && (negb (Ascii.eqb c "0") || String.eqb rest "")
  end.


(** ** A small concrete world *)

(** One world to run the examples in: a clock, a node that counts the
    transactions it was sent, an API that plans [total] identical steps
    and moves its step number on after every transaction, and a
    length-prefixed text format in place of JSON.  It serves to evaluate
    the models on concrete inputs. *)
Module Sim.

Record World := {
  clock : Z;            (* nanoseconds *)
  total : Z;            (* NumberOfSteps of every plan *)
  sent : Z;             (* transactions broadcast so far *)
  latency : Z;          (* how long one receipt query takes *)
  mined : bool;         (* whether receipts are ever found *)
  node_up : bool;       (* whether the node answers the nonce query *)
  logs : list service.Log;
}.

Definition tick (d : Z) (w : World) : World :=
  {| clock := clock w + d; total := total w; sent := sent w;
     latency := latency w; mined := mined w; node_up := node_up w; logs := logs w |}.

Definition step : service.Step :=
  {| service.AsPreparedTx :=
       Ok {| service.Label := {[ "en-US" := "step" ]};
             service.MethodParameters_ :=
               {| service.To := "0xb0b"; service.Calldata := "0x"; service.Value := "0" |};
             service.GasUseEstimate := 21000 |} |}.

Definition plan (w : World) : service.ChainActivity :=
  {| service.NumberOfSteps := total w;
     service.StepNumber := Z.min (total w) (sent w + 1);
     service.Steps := replicate (Z.to_nat (total w)) step |}.

(** The text format: [n:] and then [n] bytes, for every field. *)
Definition put (s : string) : string :=
  Go.Int_String (Z.of_nat (String.length s)) +:+ ":" +:+ s.

Definition putZ (z : Z) : string := put (Go.Int_String z).

Definition putEntry (d : TransactionDetails) : string :=
  put (Timestamp d) +:+ put (From (Tx d)) +:+ put (To (Tx d)) +:+ putZ (Value (Tx d))
  +:+ putZ (Gas (Tx d)) +:+ putZ (GasPrice (Tx d)) +:+ putZ (Nonce (Tx d))
  +:+ putZ (ChainID (Tx d)) +:+ put (Data (Tx d)) +:+ put (TxHash d) +:+ putZ (VaultID d).

Definition putLog (l : list TransactionDetails) : string :=
  putZ (Z.of_nat (length l)) +:+ String.concat "" (map putEntry l).

Fixpoint split_at_colon (acc : string) (s : string) : option (string * string) :=
  match s with
  | EmptyString => None
  | String c rest =>
      if Ascii.eqb c ":" then Some (acc, rest)
      else split_at_colon (acc +:+ String c "") rest
  end.

Definition get (s : string) : option (string * string) :=
  '(len, rest) ← split_at_colon "" s;
  n ← strconv.digits 0 len;
  let n := Z.to_nat n in
  if (n <=? String.length rest)%nat
  then Some (String.substring 0 n rest, String.substring n (String.length rest - n) rest)
  else None.

Definition getZ (s : string) : option (Z * string) :=
  '(t, rest) ← get s;
  z ← strconv.signed_decimal t;
  Some (z, rest).

Definition getEntry (s : string) : option (TransactionDetails * string) :=
  '(ts, s) ← get s; '(from, s) ← get s; '(to, s) ← get s; '(value, s) ← getZ s;
  '(gas, s) ← getZ s; '(gasPrice, s) ← getZ s; '(nonce, s) ← getZ s;
  '(chain, s) ← getZ s; '(data, s) ← get s; '(hash, s) ← get s; '(vault, s) ← getZ s;
  Some ({| Timestamp := ts;
           Tx := {| From := from; To := to; Value := value; Gas := gas;
                    GasPrice := gasPrice; Nonce := nonce; ChainID := chain;
                    Data := data |};
           TxHash := hash; VaultID := vault |}, s).

Fixpoint getEntries (n : nat) (s : string) : option (list TransactionDetails * string) :=
  match n with
  | O => Some ([], s)
  | S n' => '(d, s) ← getEntry s; '(l, s) ← getEntries n' s; Some (d :: l, s)
  end.

Definition getLog (s : string) : option (list TransactionDetails * string) :=
  '(n, s) ← getZ s; getEntries (Z.to_nat n) s.

(** A stream decoder reads one value and leaves the rest; [Unmarshal]
    wants nothing but white space after it. *)
Definition decode_stream (s : string) : result (list TransactionDetails) :=
  match getLog s with
  | Some (l, _) => Ok l
  | None => Err "unexpected end of JSON input"
  end.

Definition unmarshal (s : string) : result (list TransactionDetails) :=
  match getLog s with
  | Some (l, rest) =>
      if String.eqb rest "" || String.eqb rest (String "010" "") then Ok l
      else Err "invalid character after top-level value"
  | None => Err "unexpected end of JSON input"
  end.

#[export] Instance env : Env := {|
  W := World;
  GetAllIlks := fun w => (Ok ["ETH"; "DAI"], w);
  CreateStableCoinVault := fun _ w => (Ok (plan w), w);
  RepayZarTransaction := fun _ w => (Ok (plan w), w);
  GetLogsByTransactionHash := fun _ w => (Ok (logs w), w);
  PendingNonceAt := fun _ w =>
    (if node_up w then Ok (sent w) else Err "connection refused", w);
  SuggestGasPrice := fun w => (Ok 1000, w);
  SignTx := fun tx _ => Ok ("0x" +:+ Go.Int_String (tx_nonce tx));
  SendTransaction := fun _ w =>
    (None, {| clock := clock w; total := total w; sent := sent w + 1;
              latency := latency w; mined := mined w; node_up := node_up w;
              logs := logs w |});
  TransactionReceipt := fun _ w =>
    (if mined w then Ok {| Status := 1; BlockNumber := 1 |} else Err "not found",
     tick (latency w) w);
  HexToAddress := fun a => a;
  HexToHash := fun h => h;
  hexutil_Decode := fun s => Ok s;
  now := clock;
  Sleep := fun d w => tick (Z.max 0 d) w;
  Now_RFC3339 := fun _ => "2024-01-01T00:00:00Z";
  MarshalIndent := putLog;
  Decoder_Decode := decode_stream;
  Unmarshal := unmarshal;
|}.

Definition config : Config := {|
  WALLET_ADDRESS := "0xa11ce";
  chainID := 1;
  ILK_NAME := "ETHA";
  SYMBOL := "ETH";
  COLLATERAL_AMOUNT := 0.001;
  LOAN_AMOUNT := 100;
  VAULT_ID := 7;
  AMOUNT := 0;
|}.

(** A world whose API plans [n] steps, with instant receipts. *)
Definition start (n : Z) : State :=
  {| world := {| clock := 0; total := n; sent := 0; latency := 0;
                 mined := true; node_up := true; logs := [] |};
     fs := ∅ |}.

(** The same with a node that does not answer. *)
Definition node_down (n : Z) : State :=
  {| world := {| clock := 0; total := n; sent := 0; latency := 0;
                 mined := true; node_up := false; logs := [] |};
     fs := ∅ |}.

(** A world where no receipt is ever found and every receipt query
    takes [d] nanoseconds. *)
Definition never_mined (d : Z) : State :=
  {| world := {| clock := 0; total := 1; sent := 0; latency := d;
                 mined := false; node_up := true; logs := [] |};
     fs := ∅ |}.

End Sim.

(** ** Reading runs *)

Definition pick_broadcast (e : Event) : option (Z * SignedTx) :=
  match e with Broadcast n tx => Some (n, tx) | _ => None end.

Definition pick_label (e : Event) : option (Z * string) :=
  match e with Labelled n l => Some (n, l) | _ => None end.

Definition broadcasts (evs : list Event) : list (Z * SignedTx) := omap pick_broadcast evs.

Definition labels (evs : list Event) : list (Z * string) := omap pick_label evs.

Definition outcome {A} `{Env} (r : exit A * State * list Event) : exit A := fst (fst r).
Definition final `{Env} {A} (r : exit A * State * list Event) : State := snd (fst r).
Definition events `{Env} {A} (r : exit A * State * list Event) : list Event := snd r.


(** The log a reader [dec] finds under [path]: an absent file reads as the
    empty sequence. *)
Definition read_log (dec : string -> result (list TransactionDetails))
    (files : gmap string File) (path : string) : option (list TransactionDetails) :=
  match os.Open files path with
  | os.Bytes data => match dec data with Ok l => Some l | _ => None end
  | os.NotExist => Some []
  | os.OtherError _ => None
  end.

(** The process may replace the file under [path]. *)
Definition may_write (files : gmap string File) (path : string) : bool :=
  match files !! path with Some f => writable f | None => true end.

(** Optional sign, then one digit or more. *)
Definition decimal_syntax (s : string) : bool :=
  let all_digits (t : string) :=
    negb (String.eqb t "") && forallb is_digit (list_ascii_of_string t) in
  match s with
  | EmptyString => false
  | String c rest =>
      if Ascii.eqb c "-" || Ascii.eqb c "+" then all_digits rest else all_digits s
  end.

(** The label the examples print for a step. *)
Definition step_label (s : service.Step) : string :=
  match service.AsPreparedTx s with
  | Ok data => default "" (service.Label data !! "en-US")
  | _ => ""
  end.

(** What one pass over the steps of [plan] may and must do: no step but
    the current one is ever broadcast, at most one transaction is, and a
    pass that runs to its end has broadcast exactly the transaction built
    from the current step and printed the label of every step. *)
Definition one_step_per_poll `{Env} (plan : service.ChainActivity)
    (r : exit string * State * list Event) : Prop :=
  let current := service.StepNumber plan - 1 in
  (forall n tx, In (n, tx) (broadcasts (events r)) -> n = current)
  /\ (length (broadcasts (events r)) <= 1)%nat
  /\ (forall txHash, outcome r = Return txHash ->
        exists step data tx,
          service.Steps plan !! Z.to_nat current = Some step
          /\ service.AsPreparedTx step = Ok data
          /\ broadcasts (events r) = [(current, tx)]
          /\ tx_to (signed tx) = HexToAddress (service.To (service.MethodParameters_ data))
          /\ Hash_Hex tx = txHash
          /\ labels (events r)
             = imap (fun i s => (Z.of_nat i + 1, step_label s)) (service.Steps plan)).

(** The world before the [k]-th receipt query of a wait that has found no
    receipt so far: each round is a query and a sleep. *)
Fixpoint world_at_poll `{Env} (txHash : string) (checkInterval : Z) (k : nat) (w : W) : W :=
  match k with
  | O => w
  | S k' =>
      world_at_poll txHash checkInterval k'
        (Sleep checkInterval (snd (TransactionReceipt txHash w)))
  end.

(** A small wire format for the classifier's three decoders, to evaluate it
    on concrete bodies: [ok:...] decodes as a success text, [user:...] as a
    user error with one en-US message, [error:...] as a generic error. *)
Module SimJSON.

Definition after (prefix body : string) : option string :=
  if String.prefix prefix body
  then Some (String.substring (String.length prefix)
               (String.length body - String.length prefix) body)
  else None.

#[export] Instance success : JSON string := {|
  zero := "";
  json_Unmarshal := fun body v =>
    match after "ok:" body with
    | Some text => (text, None)
    | None => (v, Some "invalid character looking for beginning of value")
    end;
|}.

#[export] Instance userError : JSON service.UserError := {|
  zero := {| service.Messages := ∅ |};
  json_Unmarshal := fun body v =>
    match after "user:" body with
    | Some text =>
        ({| service.Messages :=
              {[ "en-US" := {| service.UserMessage := text; service.Solutions := [] |} ]} |},
         None)
    | None => (v, Some "invalid character looking for beginning of value")
    end;
|}.

#[export] Instance genericError : JSON service.Error := {|
  zero := {| service.Msg := ""; service.Reasons := [] |};
  json_Unmarshal := fun body v =>
    match after "error:" body with
    | Some text => ({| service.Msg := text; service.Reasons := ["reason"] |}, None)
    | None => (v, Some "invalid character looking for beginning of value")
    end;
|}.

Definition response (status : Z) (body : string) : http.Response :=
  {| http.StatusCode := status; http.Body := Ok body; http.X_Request_ID := "req-1";
     http.Request_URL_Path := "/auth/login"; http.Request_Method := "POST" |}.

End SimJSON.

(** ** Notions for reasoning about runs *)

(** A small logic for the events of a run: [g] picks the events of
    interest, [silent g m] says [m] produces none of them, and
    [always g m Q] says [Q] holds of the exit of [m] and of the picked
    events, from every state. *)
Section RunNotions.
Context `{Env}.
Context {X : Type} (g : Event -> option X).

Definition silent {A} (m : M A) : Prop :=
  forall st, omap g (events (m st)) = [].

Definition always {A} (m : M A) (Q : exit A -> list X -> Prop) : Prop :=
  forall st, Q (outcome (m st)) (omap g (events (m st))).

(** [Q] holds of every way to stop early without an event. *)
Definition stops {A} (Q : exit A -> list X -> Prop) : Prop :=
  (forall e, Q (Fatal e) []) /\ (forall e, Q (Panicked e) []) /\ Q OutOfFuel [].

End RunNotions.

Section PassNotions.
Context `{Env}.

(** What submitting the step at [number] does to the broadcasts: none
    and no return, or exactly the one built from [data]. *)
Definition submitted (number : Z) (data : service.PreparedTx)
    (r : exit string) (bs : list (Z * SignedTx)) : Prop :=
  (bs = [] /\ forall h, r <> Return h)
  \/ exists tx, bs = [(number, tx)]
       /\ tx_to (signed tx) = HexToAddress (service.To (service.MethodParameters_ data))
       /\ forall h, r = Return h -> Hash_Hex tx = h.

Definition returns_hash (tx : SignedTx) (r : exit string) (bs : list (Z * SignedTx)) : Prop :=
  bs = [] /\ forall h, r = Return h -> Hash_Hex tx = h.

(** The pass over the steps that both examples make, for any way
    [submit] to submit the current step. *)
Fixpoint passOver (submit : Z -> service.PreparedTx -> M string)
    (stepNumber number : Z) (steps : list service.Step) (txHash : string) : M string :=
  match steps with
  | [] => ret txHash
  | step :: rest =>
      let* data := orFatal "Failed to convert step to prepared tx: "
                     (service.AsPreparedTx step) in
      run emit (Labelled (number + 1) (default "" (service.Label data !! "en-US"))) in
      let* txHash' :=
        if int64 (stepNumber - 1) =? number
        then submit number data
        else ret txHash in
      passOver submit stepNumber (number + 1) rest txHash'
  end.

End PassNotions.
(** ** Rounding in [big.Float] *)

Section Rounding.
Import Go.

Lemma bitlen_bounds (m : positive) :
  0 < bitlen m /\ 2 ^ (bitlen m - 1) <= Z.pos m < 2 ^ bitlen m.
Proof.
  unfold bitlen.
  pose proof (Z.log2_spec (Z.pos m) ltac:(lia)) as H.
  pose proof (Z.log2_nonneg (Z.pos m)).
  replace (Z.log2 (Z.pos m) + 1 - 1) with (Z.log2 (Z.pos m)) by lia.
  rewrite <- Z.add_1_r in H. lia.
Qed.

(** A mantissa that fits the precision is kept as it is. *)
Lemma round_fits (prec : Z) (m : positive) (e : Z) :
  bitlen m <= prec -> round prec m e = (Z.pos m, e).
Proof.
  intros H. unfold round. destruct (Z.leb_spec (bitlen m) prec); [reflexivity|lia].
Qed.

(** A longer mantissa is cut to [prec] bits, at most half a unit of the
    last kept bit away. *)
Lemma round_cuts (prec : Z) (m : positive) (e : Z) :
  0 < prec -> prec < bitlen m ->
  exists q,
    round prec m e = (q, e + (bitlen m - prec))
    /\ 2 ^ (prec - 1) <= q <= 2 ^ prec
    /\ 2 * Z.abs (q * 2 ^ (bitlen m - prec) - Z.pos m) <= 2 ^ (bitlen m - prec).
Proof.
  intros Hprec Hlong. unfold round.
  destruct (Z.leb_spec (bitlen m) prec) as [|_]; [lia|].
  destruct (bitlen_bounds m) as [_ Hm].
  set (s := bitlen m - prec) in *. set (M := Z.pos m) in *.
  assert (Hs : 0 < s) by (unfold s; lia).
  assert (Hpow : 2 ^ s = 2 ^ (s - 1) * 2).
  { replace s with ((s - 1) + 1) at 1 by lia. rewrite Z.pow_add_r by lia. lia. }
  assert (Hp1 : 0 < 2 ^ (s - 1)) by (apply Z.pow_pos_nonneg; lia).
  assert (Hlo : 2 ^ (bitlen m - 1) = 2 ^ (prec - 1) * 2 ^ s).
  { rewrite <- Z.pow_add_r by lia. f_equal. unfold s. lia. }
  assert (Hhi : 2 ^ bitlen m = 2 ^ prec * 2 ^ s).
  { rewrite <- Z.pow_add_r by lia. f_equal. unfold s. lia. }
  assert (Hpp : 0 < 2 ^ (prec - 1)) by (apply Z.pow_pos_nonneg; lia).
  assert (Hpp2 : 2 ^ prec = 2 ^ (prec - 1) * 2).
  { replace prec with ((prec - 1) + 1) at 1 by lia. rewrite Z.pow_add_r by lia. lia. }
  rewrite Z.shiftr_div_pow2 by lia.
  rewrite Z.land_ones by lia.
  pose proof (Z.div_mod M (2 ^ s) ltac:(lia)) as Hdm.
  pose proof (Z.mod_pos_bound M (2 ^ s) ltac:(lia)) as Hr.
  pose proof (Z.mod_pos_bound M (2 ^ (s - 1)) ltac:(lia)) as Hr'.
  pose proof (Z.rem_mul_r M (2 ^ (s - 1)) 2 ltac:(lia) ltac:(lia)) as Hsplit.
  rewrite <- Hpow in Hsplit.
  pose proof (Z.testbit_spec' M (s - 1) ltac:(lia)) as Hbit.
  assert (Hq : 2 ^ (prec - 1) <= M / 2 ^ s < 2 ^ prec).
  { split.
    - apply Z.div_le_lower_bound; lia.
    - apply Z.div_lt_upper_bound; lia. }
  set (Q0 := M / 2 ^ s) in *. set (R := M mod 2 ^ s) in *.
  set (R' := M mod 2 ^ (s - 1)) in *.
  destruct (Z.testbit M (s - 1)); simpl in Hbit; rewrite <- Hbit in Hsplit; simpl.
  - destruct (Z.eqb_spec R' 0) as [HR0|HR0]; simpl.
    + destruct (Z.odd Q0); eexists; (split; [reflexivity|]); split; nia.
    + eexists; (split; [reflexivity|]); split; nia.
  - eexists; (split; [reflexivity|]); split; nia.
Qed.

Lemma pow2Q_pos (e : Z) : (0 < pow2Q e)%Q.
Proof.
  unfold pow2Q. destruct (Z.leb_spec 0 e).
  - assert (0 < 2 ^ e) by (apply Z.pow_pos_nonneg; lia).
    unfold Qlt. cbn [inject_Z Qnum Qden]. lia.
  - reflexivity.
Qed.

Lemma pow2Q_add (a b : Z) :
  0 <= b -> (pow2Q (a + b) == pow2Q a * inject_Z (2 ^ b))%Q.
Proof.
  intros Hb. unfold pow2Q.
  assert (Hpb : 0 < 2 ^ b) by (apply Z.pow_pos_nonneg; lia).
  destruct (Z.leb_spec 0 a) as [Ha|Ha], (Z.leb_spec 0 (a + b)) as [Hab|Hab]; try lia.
  - rewrite Z.pow_add_r by lia. rewrite inject_Z_mult. reflexivity.
  - unfold Qeq. cbn [Qmult inject_Z Qnum Qden].
    assert (Hpa : 0 < 2 ^ (- a)) by (apply Z.pow_pos_nonneg; lia).
    rewrite Pos.mul_1_r, Z2Pos.id by lia.
    rewrite Z.mul_1_l, Z.mul_1_r, <- Z.pow_add_r by lia. f_equal. lia.
  - unfold Qeq. cbn [Qmult inject_Z Qnum Qden].
    assert (Hpa : 0 < 2 ^ (- a)) by (apply Z.pow_pos_nonneg; lia).
    assert (Hpab : 0 < 2 ^ (- (a + b))) by (apply Z.pow_pos_nonneg; lia).
    rewrite Pos.mul_1_r, !Z2Pos.id by lia.
    rewrite !Z.mul_1_l, <- Z.pow_add_r by lia. f_equal. lia.
Qed.

(** Scaling both sides by a power of two keeps the order. *)
Lemma scaled_le (a b e : Z) :
  a <= b -> (inject_Z a * pow2Q e <= inject_Z b * pow2Q e)%Q.
Proof.
  intros Hab. apply Qmult_le_compat_r.
  - rewrite <- Zle_Qle. exact Hab.
  - apply Qlt_le_weak, pow2Q_pos.
Qed.

(** Rounding to 53 bits moves a positive value by at most [2^-53] of
    itself, and not at all when the mantissa fits. *)
Lemma rounded_close (m : positive) (e : Z) :
  let x := (inject_Z (Z.pos m) * pow2Q e)%Q in
  exists r, Float_value (of_rounded false (round 53 m e)) = Some r
    /\ (Qabs (r - x) * inject_Z (2 ^ 53) <= x)%Q
    /\ (bitlen m <= 53 -> r = x).
Proof.
  intros x. destruct (Z.le_gt_cases (bitlen m) 53) as [Hfit|Hlong].
  - rewrite round_fits by exact Hfit. cbn [of_rounded Float_value].
    exists x. split; [reflexivity|]. split; [|reflexivity].
    setoid_replace (x - x)%Q with 0%Q using relation Qeq by ring.
    simpl Qabs. rewrite Qmult_0_l. unfold x.
    apply Qmult_le_0_compat; [discriminate | apply Qlt_le_weak, pow2Q_pos].
  - destruct (round_cuts 53 m e ltac:(lia) Hlong) as (q & Hr & Hq & Herr).
    destruct (bitlen_bounds m) as [_ Hm].
    set (s := bitlen m - 53) in *.
    rewrite Hr. destruct q as [|q|q]; try lia.
    cbn [of_rounded Float_value]. eexists. split; [reflexivity|].
    split; [|lia].
    assert (Hs : 0 <= s) by (unfold s; lia).
    assert (Hdiff : (inject_Z (Z.pos q) * pow2Q (e + s) - x
                     == inject_Z (Z.pos q * 2 ^ s - Z.pos m) * pow2Q e)%Q).
    { unfold x. rewrite (pow2Q_add e s Hs). unfold Zminus.
      rewrite inject_Z_plus, inject_Z_mult, inject_Z_opp. ring. }
    rewrite Hdiff, Qabs_Qmult.
    change (Qabs (inject_Z (Z.pos q * 2 ^ s - Z.pos m)))
      with (inject_Z (Z.abs (Z.pos q * 2 ^ s - Z.pos m))).
    rewrite (Qabs_pos (pow2Q e)) by apply Qlt_le_weak, pow2Q_pos.
    setoid_replace (inject_Z (Z.abs (Z.pos q * 2 ^ s - Z.pos m)) * pow2Q e
                    * inject_Z (2 ^ 53))%Q
      with (inject_Z (Z.abs (Z.pos q * 2 ^ s - Z.pos m) * 2 ^ 53) * pow2Q e)%Q
      using relation Qeq by (rewrite inject_Z_mult; ring).
    unfold x. apply scaled_le.
    assert (Hlow : 2 ^ (bitlen m - 1) = 2 ^ 52 * 2 ^ s).
    { rewrite <- Z.pow_add_r by lia. f_equal. unfold s. lia. }
    assert (0 < 2 ^ s) by (apply Z.pow_pos_nonneg; lia).
    nia.
Qed.

End Rounding.
(** ** Properties of [toNative] *)

Section ToNative.

Lemma precision_fold_18 (symbols : list Symbol) (m : gmap string Z) :
  (forall k v, m !! k = Some v -> v = 18) ->
  forall k v, foldl (fun m s => <[ s := 18 ]> m) m symbols !! k = Some v -> v = 18.
Proof.
  revert m. induction symbols as [|s symbols IH]; intros m Hm; simpl; [exact Hm|].
  apply IH. intros k v H.
  destruct (decide (s = k)) as [->|Hne].
  - rewrite lookup_insert_eq in H. congruence.
  - rewrite lookup_insert_ne in H by done. eauto.
Qed.

Lemma precision_all_18 (symbols : list Symbol) (symbol : Symbol) (p : Z) :
  CreateVault.precision symbols !! symbol = Some p -> p = 18.
Proof.
  apply precision_fold_18. intros k v H.
  apply lookup_singleton_Some in H. lia.
Qed.

Lemma precision_ZAR (symbols : list Symbol) :
  CreateVault.precision symbols !! "ZAR" = Some 18.
Proof.
  unfold CreateVault.precision.
  assert (H : ({[ "ZAR" := 18 ]} : gmap string Z) !! "ZAR" = Some 18)
    by apply lookup_singleton_eq.
  revert H. generalize ({[ "ZAR" := 18 ]} : gmap string Z).
  induction symbols as [|s symbols IH]; intros m H; simpl; [done|].
  apply IH. destruct (decide (s = "ZAR")) as [->|Hne].
  - apply lookup_insert_eq.
  - by rewrite lookup_insert_ne.
Qed.

(** With a known symbol the vault-creation converter is the shared body
    at 18 decimals. *)
Lemma toNative_known (ilks : result (list Symbol)) symbols symbol amount :
  CreateVault.getIlksSymbol ilks = Ok symbols ->
  is_Some (CreateVault.precision symbols !! symbol) ->
  CreateVault.toNative ilks symbol amount = scaleToNative 18 amount.
Proof.
  intros Hs [p Hp]. unfold CreateVault.toNative. rewrite Hs, Hp.
  by rewrite (precision_all_18 _ _ _ Hp).
Qed.

(** [math.Pow10(18)] is the float64 [1e18], which is [10^18] exactly. *)
Lemma scale_18 :
  Go.SetFloat64 (Go.Pow10 18) = Ok (Go.FFinite false 7812500000000000 7)
  /\ 7812500000000000 * 2 ^ 7 = 10 ^ 18.
Proof. split; vm_compute; reflexivity. Qed.

Lemma round_positive (prec : Z) (m : positive) (e : Z) :
  0 < prec -> exists q e', Go.round prec m e = (Z.pos q, e').
Proof.
  intros Hprec. destruct (Z.le_gt_cases (Go.bitlen m) prec) as [Hfit|Hlong].
  - exists m, e. by apply round_fits.
  - destruct (round_cuts prec m e Hprec Hlong) as (q & Hr & Hq & _).
    assert (0 < 2 ^ (prec - 1)) by (apply Z.pow_pos_nonneg; lia).
    destruct q as [|q|q]; try lia. eauto.
Qed.

(** [Int] on a positive [big.Float]: the floor of its value, [Exact]
    when the value is integral and [Below] otherwise. *)
Lemma Int_of_positive (q : positive) (e : Z) :
  let r := (inject_Z (Z.pos q) * Go.pow2Q e)%Q in
  Go.Int (Go.FFinite false q e)
  = (Some (Qfloor r), if Qintegral r then Go.Exact else Go.Below).
Proof.
  unfold Go.Int, Go.pow2Q, Qintegral, Qfloor.
  destruct (Z.leb_spec 0 e) as [He|He]; cbn [Qmult inject_Z Qnum Qden Pos.mul].
  - rewrite Z.mod_1_r, Z.div_1_r, Z.shiftl_mul_pow2 by lia. simpl Z.eqb.
    f_equal. f_equal. lia.
  - assert (Hpow : 0 < 2 ^ (- e)) by (apply Z.pow_pos_nonneg; lia).
    rewrite Z.land_ones, Z.shiftr_div_pow2 by lia.
    rewrite Pos.mul_1_l, Z2Pos.id by lia. rewrite Z.mul_1_r.
    destruct (Z.pos q mod 2 ^ (- e) =? 0); f_equal; f_equal; lia.
Qed.

(** The shared body at 18 decimals: the product is rounded to 53 bits,
    and only then tested for being an integer. *)
Lemma scaleToNative_18 (amount : float) :
  finite_nonneg amount = true ->
  exists r : Q,
    rounded_product 18 amount = Some r
    /\ scaleToNative 18 amount =
         if Qintegral r then Ok (Go.Int_String (Qfloor r))
         else Err "lost precision during conversion".
Proof.
  intros Hfin. unfold rounded_product, scaleToNative.
  destruct scale_18 as [-> _].
  unfold finite_nonneg in Hfin. unfold Go.SetFloat64.
  destruct (Prim2SF amount) as [s|s| |s m e]; try discriminate.
  - exists 0%Q. split; reflexivity.
  - destruct s; [discriminate|].
    cbn [Go.Mul Go.neg_of xorb].
    destruct (round_positive 53 (m * 7812500000000000) (e + 7) ltac:(lia))
      as (q & e' & ->).
    cbn [Go.of_rounded Go.Float_value].
    eexists; split; [reflexivity|].
    rewrite Int_of_positive. cbv zeta.
    destruct (Qintegral _); reflexivity.
Qed.

(** The rounded product is within [2^-53] of the exact product,
    relatively. *)
Lemma rounded_product_close (amount : float) :
  finite_nonneg amount = true ->
  exists x r : Q,
    exact_product 18 amount = Some x
    /\ rounded_product 18 amount = Some r
    /\ (Qabs (r - x) * inject_Z (2 ^ 53) <= x)%Q.
Proof.
  intros Hfin. unfold exact_product, rounded_product, Go.float64_value.
  destruct scale_18 as [-> Hscale].
  unfold finite_nonneg in Hfin. unfold Go.SetFloat64.
  destruct (Prim2SF amount) as [s|s| |s m e]; try discriminate.
  - eexists; eexists. split; [reflexivity|]. split; [reflexivity|]. discriminate.
  - destruct s; [discriminate|].
    cbn [Go.Mul Go.neg_of xorb Go.Float_value].
    destruct (rounded_close (m * 7812500000000000) (e + 7)) as (r & Hr & Hclose & _).
    rewrite Hr. eexists; exists r. split; [reflexivity|]. split; [reflexivity|].
    assert (Hx : (inject_Z (Z.pos m) * Go.pow2Q e * inject_Z (10 ^ 18)
                  == inject_Z (Z.pos (m * 7812500000000000)) * Go.pow2Q (e + 7))%Q).
    { rewrite (pow2Q_add e 7) by lia. rewrite <- Hscale.
      rewrite Pos2Z.inj_mul, !inject_Z_mult. ring. }
    rewrite Hx. exact Hclose.
Qed.

End ToNative.

(** C2: at 18 decimals 0.01 becomes "10000000000000000" and 100 becomes
    "100000000000000000000", without error, in both examples' converters
    (for the vault-creation one: whatever ilks the API lists, for every
    symbol its precision map knows); both texts are minimal decimals
    without sign or leading zero. *)
Theorem toNative_documented_amounts
    (ilks : result (list Symbol)) (symbols : list Symbol) (symbol : Symbol) :
  CreateVault.getIlksSymbol ilks = Ok symbols ->
  is_Some (CreateVault.precision symbols !! symbol) ->
  CreateVault.toNative ilks symbol 0.01 = Ok "10000000000000000"
  /\ CreateVault.toNative ilks symbol 100 = Ok "100000000000000000000"
  /\ RepayVault.toNative 0.01 = Ok "10000000000000000"
  /\ RepayVault.toNative 100 = Ok "100000000000000000000"
  /\ minimal_decimal "10000000000000000" = true
  /\ minimal_decimal "100000000000000000000" = true.
Proof.
  intros Hs Hp.
  rewrite !(toNative_known _ _ _ _ Hs Hp). unfold RepayVault.toNative.
  repeat split; vm_compute; reflexivity.
Qed.

Lemma toNative_documented_amounts_witness :
  CreateVault.toNative (Ok ["ETH"; "DAI"; "ETH"]) "ETH" 0.01 = Ok "10000000000000000"
  /\ CreateVault.toNative (Ok ["ETH"; "DAI"; "ETH"]) "ETH" 100 = Ok "100000000000000000000".
Proof.
  pose proof (toNative_documented_amounts (Ok ["ETH"; "DAI"; "ETH"]) ["ETH"; "DAI"] "ETH") as H.
  destruct H as (H1 & H2 & _).
  - vm_compute; reflexivity.
  - exists 18. vm_compute; reflexivity.
  - split; assumption.
Defined.

(** C1, as stated, fails: the float64 nearest to 0.01 times [10^18] is not
    an integer (it is 10000000000000000.208...), and both converters return
    the rounded integer text instead of an error. *)
Lemma toNative_rounds_silently :
  finite_nonneg 0.01 = true
  /\ CreateVault.precision [] !! "ZAR" = Some 18
  /\ option_map Qintegral (exact_product 18 0.01) = Some false
  /\ CreateVault.toNative (Ok []) "ZAR" 0.01 = Ok "10000000000000000"
  /\ RepayVault.toNative 0.01 = Ok "10000000000000000".
Proof. repeat split; vm_compute; reflexivity. Qed.

(** C1, amended: for a finite non-negative amount and a known symbol (whose
    decimals are then 18) the product with [10^18] is rounded to 53
    significant bits, to nearest even, which moves it by at most [2^-53] of
    the exact product; [toNative] returns the lost-precision error exactly
    when that rounded product is not an integer, and otherwise the decimal
    text of the rounded product. *)
Theorem toNative_checks_rounded_product
    (ilks : result (list Symbol)) (symbols : list Symbol) (symbol : Symbol)
    (p : Z) (amount : float) :
  finite_nonneg amount = true ->
  CreateVault.getIlksSymbol ilks = Ok symbols ->
  CreateVault.precision symbols !! symbol = Some p ->
  exists r : Q,
    rounded_product p amount = Some r
    /\ CreateVault.toNative ilks symbol amount =
         (if Qintegral r then Ok (Go.Int_String (Qfloor r))
          else Err "lost precision during conversion")
    /\ RepayVault.toNative amount = CreateVault.toNative ilks symbol amount
    /\ exists x : Q,
         exact_product p amount = Some x
         /\ (Qabs (r - x) * inject_Z (2 ^ 53) <= x)%Q.
Proof.
  intros Hfin Hs Hp.
  rewrite (toNative_known ilks symbols symbol amount Hs (mk_is_Some _ _ Hp)).
  rewrite (precision_all_18 _ _ _ Hp).
  destruct (scaleToNative_18 amount Hfin) as (r & Hr & Hn).
  destruct (rounded_product_close amount Hfin) as (x & r' & Hx & Hr' & Hclose).
  rewrite Hr in Hr'. injection Hr' as <-.
  exists r. repeat split; try assumption. exists x. split; assumption.
Qed.

Lemma toNative_checks_rounded_product_witness :
  exists r : Q,
    rounded_product 18 1.5e-18 = Some r
    /\ CreateVault.toNative (Ok ["ETH"]) "ETH" 1.5e-18 =
         (if Qintegral r then Ok (Go.Int_String (Qfloor r))
          else Err "lost precision during conversion")
    /\ RepayVault.toNative 1.5e-18 = CreateVault.toNative (Ok ["ETH"]) "ETH" 1.5e-18
    /\ exists x : Q,
         exact_product 18 1.5e-18 = Some x
         /\ (Qabs (r - x) * inject_Z (2 ^ 53) <= x)%Q.
Proof.
  apply (toNative_checks_rounded_product (Ok ["ETH"]) ["ETH"] "ETH" 18 1.5e-18).
  - vm_compute; reflexivity.
  - vm_compute; reflexivity.
  - vm_compute; reflexivity.
Defined.

(** ** Reasoning about runs *)

Section RunLogic.
Context `{Env}.
Context {X : Type} (g : Event -> option X).

Lemma silent_ret {A} (a : A) : silent g (ret a).
Proof. intros st. reflexivity. Qed.

Lemma silent_Fatalf {A} (msg : string) : silent g (Fatalf (A := A) msg).
Proof. intros st. reflexivity. Qed.

Lemma silent_panic {A} (msg : string) :
  silent g (fun st => (Panicked (A := A) msg, st, [])).
Proof. intros st. reflexivity. Qed.

Lemma silent_out_of_fuel {A} : silent g (fun st => (OutOfFuel (A := A), st, [])).
Proof. intros st. reflexivity. Qed.

Lemma silent_call {A} (f : W -> A * W) : silent g (call f).
Proof. intros st. unfold call, events. destruct (f (world st)). reflexivity. Qed.

Lemma silent_get_world : silent g get_world.
Proof. intros st. reflexivity. Qed.

Lemma silent_get_fs : silent g get_fs.
Proof. intros st. reflexivity. Qed.

Lemma silent_put_fs files : silent g (put_fs files).
Proof. intros st. reflexivity. Qed.

Lemma silent_emit (e : Event) : g e = None -> silent g (emit e).
Proof. intros He st. unfold emit, events. simpl. rewrite He. reflexivity. Qed.

Lemma silent_orFatal {A} (msg : string) (r : result A) : silent g (orFatal msg r).
Proof. destruct r; intros st; reflexivity. Qed.

Lemma silent_bind {A B} (m : M A) (f : A -> M B) :
  silent g m -> (forall a, silent g (f a)) -> silent g (bind m f).
Proof.
  intros Hm Hf st. specialize (Hm st). unfold bind, events in *.
  destruct (m st) as [[r st'] evs]. simpl in Hm.
  destruct r as [a| | |]; simpl; try exact Hm.
  specialize (Hf a st'). destruct (f a st') as [[r' st''] evs']. simpl in *.
  rewrite omap_app, Hm, Hf. reflexivity.
Qed.

Lemma always_ret {A} (a : A) (Q : exit A -> list X -> Prop) :
  Q (Return a) [] -> always g (ret a) Q.
Proof. intros HQ st. exact HQ. Qed.

Lemma always_silent {A} (m : M A) (Q : exit A -> list X -> Prop) :
  silent g m -> (forall r, Q r []) -> always g m Q.
Proof. intros Hm HQ st. rewrite (Hm st). apply HQ. Qed.

Lemma always_weaken {A} (m : M A) (Q Q' : exit A -> list X -> Prop) :
  always g m Q -> (forall r xs, Q r xs -> Q' r xs) -> always g m Q'.
Proof. intros Hm HQ st. apply HQ, Hm. Qed.

Lemma always_bind {A B} (m : M A) (f : A -> M B) (Q : exit B -> list X -> Prop) :
  always g m (fun r xs =>
              match r with
              | Return a => always g (f a) (fun r' xs' => Q r' (xs ++ xs'))
              | Fatal e => Q (Fatal e) xs
              | Panicked e => Q (Panicked e) xs
              | OutOfFuel => Q OutOfFuel xs
              end) ->
  always g (bind m f) Q.
Proof.
  intros Hm st. specialize (Hm st). unfold bind, outcome, events in *.
  destruct (m st) as [[r st'] evs]. simpl in Hm.
  destruct r as [a| | |]; simpl; try exact Hm.
  specialize (Hm st'). destruct (f a st') as [[r' st''] evs']. simpl in *.
  rewrite omap_app. exact Hm.
Qed.

Lemma always_bind_silent {A B} (m : M A) (f : A -> M B)
    (Q : exit B -> list X -> Prop) :
  silent g m -> stops Q -> (forall a, always g (f a) Q) -> always g (bind m f) Q.
Proof.
  intros Hm (HF & HP & HO) Hf. apply always_bind. intros st.
  rewrite (Hm st). destruct (outcome (m st)); auto.
Qed.

Lemma always_bind_emit {B} (e : Event) (f : unit -> M B)
    (Q : exit B -> list X -> Prop) :
  always g (f tt) (fun r xs => Q r (omap g [e] ++ xs)) -> always g (bind (emit e) f) Q.
Proof. intros Hf. apply always_bind. intros st. exact Hf. Qed.

(** The shared procedures print and do nothing else. *)
Hypothesis g_Printed : forall text, g (Printed text) = None.

Lemma silent_SaveTransactionDetailsTo path tx txHash vaultID :
  silent g (SaveTransactionDetailsTo path tx txHash vaultID).
Proof.
  unfold SaveTransactionDetailsTo.
  apply silent_bind; [apply silent_get_world|intros w].
  apply silent_bind; [apply silent_get_fs|intros files].
  assert (Hwrite : forall l,
             silent g (match os.WriteFile files path l with
                     | Ok files' =>
                         bind (put_fs files') (fun _ =>
                         bind (emit (Printed "Transaction details saved to transaction_log.json"))
                              (fun _ => ret None))
                     | Err e => ret (Some ("failed to create transaction_log.json: " +:+ e))
                     | Panic e => fun st => (Panicked e, st, [])
                     end)).
  { intros l. destruct (os.WriteFile files path l).
    - apply silent_bind; [apply silent_put_fs|intros _].
      apply silent_bind; [apply silent_emit, g_Printed|intros _]. apply silent_ret.
    - apply silent_ret.
    - apply silent_panic. }
  destruct (os.Open files path) as [data| |e].
  - destruct (Decoder_Decode data); [apply Hwrite|apply silent_ret|apply silent_panic].
  - apply Hwrite.
  - apply silent_ret.
Qed.

Lemma silent_waitLoop fuel startTime txHash maxWaitTime checkInterval :
  silent g (waitLoop fuel startTime txHash maxWaitTime checkInterval).
Proof.
  induction fuel as [|fuel IH]; simpl;
    (apply silent_bind; [apply silent_get_world|intros w]);
    destruct (Since w startTime <? maxWaitTime).
  - apply silent_out_of_fuel.
  - apply silent_bind; [apply silent_emit, g_Printed|intros _]. apply silent_ret.
  - apply silent_bind; [apply silent_call|intros r]. destruct r as [receipt|e|e].
    + apply silent_ret.
    + apply silent_bind.
      { destruct (String.eqb e "not found");
          [apply silent_ret | apply silent_emit, g_Printed]. }
      intros _. apply silent_bind; [apply silent_emit, g_Printed|intros _].
      apply silent_bind; [apply silent_call|intros _]. exact IH.
    + apply silent_panic.
  - apply silent_bind; [apply silent_emit, g_Printed|intros _]. apply silent_ret.
Qed.

Lemma silent_waitForTransactionReceipt fuel txHash maxWaitTime checkInterval :
  silent g (waitForTransactionReceipt fuel txHash maxWaitTime checkInterval).
Proof.
  unfold waitForTransactionReceipt.
  apply silent_bind; [apply silent_get_world|intros w]. apply silent_waitLoop.
Qed.

End RunLogic.

(** ** The transaction log *)

Section TransactionLog.
Context `{Env}.

Lemma WriteFile_may_write (files : gmap string File) (path data : string) :
  may_write files path = true ->
  exists f, os.WriteFile files path data = Ok (<[ path := f ]> files)
            /\ content f = data /\ readable f = true \/
            (exists f0, files !! path = Some f0 /\ readable f0 = false
               /\ os.WriteFile files path data = Ok (<[ path := f ]> files)
               /\ content f = data /\ readable f = false).
Proof.
  unfold may_write, os.WriteFile. destruct (files !! path) as [f0|] eqn:E.
  - intros ->. destruct (readable f0) eqn:Er.
    + eexists; left; repeat split; reflexivity.
    + eexists; right; exists f0; repeat split; try reflexivity; assumption.
  - intros _. eexists; left; repeat split; reflexivity.
Qed.

(** After a successful read of [path], a permitted write leaves a
    readable file with the written bytes. *)
Lemma WriteFile_after_read dec (files : gmap string File) (path data : string) l :
  read_log dec files path = Some l ->
  may_write files path = true ->
  exists f, os.WriteFile files path data = Ok (<[ path := f ]> files)
            /\ content f = data /\ readable f = true.
Proof.
  unfold read_log, os.Open, may_write, os.WriteFile.
  destruct (files !! path) as [f0|] eqn:E.
  - destruct (readable f0) eqn:Er; [|discriminate].
    intros _ ->. eexists; repeat split; reflexivity.
  - intros _ _. eexists; repeat split; reflexivity.
Qed.

Lemma read_log_insert dec (files : gmap string File) (path : string) (f : File) l :
  readable f = true -> dec (content f) = Ok l ->
  read_log dec (<[ path := f ]> files) path = Some l.
Proof.
  intros Hr Hd. unfold read_log, os.Open.
  rewrite lookup_insert_eq, Hr, Hd. reflexivity.
Qed.

End TransactionLog.

(** C7: whatever sequence the log holds (none when the file is absent),
    [SaveTransactionDetails] returns no error and leaves a file that reads
    as that sequence followed by the new entry; other files are untouched.
    The entry carries the arguments and the time of the call.  Assumed of
    the JSON library: the text it writes for this sequence reads back as
    this sequence. *)
Theorem SaveTransactionDetails_appends `{Env}
    (path : string) (tx : EthereumTransaction) (txHash : string) (vaultID : Z)
    (st : State) (prior : list TransactionDetails) :
  let entry := {| Timestamp := Now_RFC3339 (world st); Tx := tx;
                  TxHash := txHash; VaultID := vaultID |} in
  let r := SaveTransactionDetailsTo path tx txHash vaultID st in
  read_log Decoder_Decode (fs st) path = Some prior ->
  may_write (fs st) path = true ->
  Decoder_Decode (MarshalIndent (prior ++ [entry]) +:+ String "010" "")
    = Ok (prior ++ [entry]) ->
  outcome r = Return None
  /\ read_log Decoder_Decode (fs (final r)) path = Some (prior ++ [entry])
  /\ last (prior ++ [entry]) = Some entry
  /\ (forall i, (i < length prior)%nat -> (prior ++ [entry]) !! i = prior !! i)
  /\ (forall other, other <> path -> fs (final r) !! other = fs st !! other)
  /\ world (final r) = world st.
Proof.
  intros entry r Hread Hw Hcodec.
  destruct (WriteFile_after_read _ _ path
              (MarshalIndent (prior ++ [entry]) +:+ String "010" "") _ Hread Hw)
    as (f & HW & Hc & Hr).
  assert (Hrun : r = (Return None,
                      {| world := world st; fs := <[ path := f ]> (fs st) |},
                      [Printed "Transaction details saved to transaction_log.json"])).
  { subst r. unfold SaveTransactionDetailsTo, bind, get_world, get_fs.
    unfold read_log in Hread.
    destruct (os.Open (fs st) path) as [data| |e] eqn:Eo; try discriminate.
    - destruct (Decoder_Decode data) as [l| |] eqn:Ed; try discriminate.
      injection Hread as ->. fold entry. rewrite HW. reflexivity.
    - injection Hread as <-. fold entry. cbv zeta.
      change ([] ++ [entry]) with [entry] in *. rewrite HW. reflexivity. }
  rewrite Hrun. unfold outcome, final. simpl.
  split; [reflexivity|]. split.
  { apply read_log_insert; [assumption|]. rewrite Hc. exact Hcodec. }
  split; [apply last_snoc|]. split.
  { intros i Hi. apply lookup_app_l. exact Hi. }
  split; [|reflexivity].
  intros other Hne. apply lookup_insert_ne. congruence.
Qed.

Section SaveWitness.
#[local] Existing Instance Sim.env.

Lemma SaveTransactionDetails_appends_witness :
  let tx := {| From := "0xa11ce"; To := "0xb0b"; Value := 5; Gas := 21000;
               GasPrice := 1000; Nonce := 0; ChainID := 1; Data := "0x" |} in
  let r := SaveTransactionDetailsTo "transaction_log.json" tx "0xabc" (-1)
             (Sim.start 1) in
  outcome r = Return None
  /\ read_log Decoder_Decode (fs (final r)) "transaction_log.json"
     = Some [ {| Timestamp := "2024-01-01T00:00:00Z"; Tx := tx; TxHash := "0xabc";
                 VaultID := -1 |} ].
Proof.
  intros tx r.
  destruct (SaveTransactionDetails_appends "transaction_log.json" tx
              "0xabc" (-1) (Sim.start 1) []) as (H1 & H2 & _).
  - vm_compute; reflexivity.
  - vm_compute; reflexivity.
  - vm_compute; reflexivity.
  - split; [exact H1 | exact H2].
Defined.

End SaveWitness.

Section PatchLog.
Context `{Env}.

Lemma alter_last {A} (f : A -> A) (l : list A) (x : A) :
  alter f (length l) (l ++ [x]) = l ++ [f x].
Proof. induction l as [|y l IH]; simpl; [reflexivity|]. f_equal. exact IH. Qed.

(** What the patch does to a log that reads as a non-empty sequence. *)
Lemma patchLastVaultId_run (st : State) (vaultId : Z)
    (earlier : list TransactionDetails) (d : TransactionDetails) :
  read_log Unmarshal (fs st) CreateVault.log_file = Some (earlier ++ [d]) ->
  may_write (fs st) CreateVault.log_file = true ->
  exists f,
    content f = MarshalIndent (earlier ++ [set_VaultID d vaultId])
    /\ readable f = true
    /\ CreateVault.patchLastVaultId vaultId st
       = (Return tt,
          {| world := world st; fs := <[ CreateVault.log_file := f ]> (fs st) |},
          [Printed "Transaction details updated successfully."]).
Proof.
  intros Hread Hw.
  destruct (WriteFile_after_read _ _ CreateVault.log_file
              (MarshalIndent (earlier ++ [set_VaultID d vaultId])) _ Hread Hw)
    as (f & HW & Hc & Hr).
  exists f. split; [exact Hc|]. split; [exact Hr|].
  unfold CreateVault.patchLastVaultId, bind, get_fs.
  unfold read_log in Hread.
  destruct (os.Open (fs st) CreateVault.log_file) as [data| |e] eqn:Eo.
  - destruct (Unmarshal data) as [l| |] eqn:Ed; try discriminate.
    injection Hread as ->. cbn [ret]. rewrite Ed. cbn [ret orFatal].
    rewrite length_app. cbn [length]. rewrite Nat.add_1_r.
    cbn [ret]. rewrite alter_last, HW. reflexivity.
  - injection Hread as Hnil. destruct earlier; discriminate.
  - discriminate.
Qed.

End PatchLog.

(** C8: on a log that reads as a non-empty sequence, the patch of
    [CreateVaultExample] ends normally and leaves the file holding the
    serialization of the same entries, in the same order, where only the
    last entry's vault id was replaced by the given id; other files are
    untouched.  Assumed of the JSON library: the text it writes for the
    patched sequence reads back as that sequence. *)
Theorem patchLastVaultId_frame `{Env}
    (st : State) (vaultId : Z)
    (earlier : list TransactionDetails) (d : TransactionDetails) :
  let r := CreateVault.patchLastVaultId vaultId st in
  let patched := earlier ++ [set_VaultID d vaultId] in
  read_log Unmarshal (fs st) CreateVault.log_file = Some (earlier ++ [d]) ->
  may_write (fs st) CreateVault.log_file = true ->
  Unmarshal (MarshalIndent patched) = Ok patched ->
  outcome r = Return tt
  /\ read_log Unmarshal (fs (final r)) CreateVault.log_file = Some patched
  /\ (exists f, fs (final r) !! CreateVault.log_file = Some f
                /\ content f = MarshalIndent patched)
  /\ length patched = length (earlier ++ [d])
  /\ (forall i, (i < length earlier)%nat -> patched !! i = (earlier ++ [d]) !! i)
  /\ (exists d', last patched = Some d'
                 /\ VaultID d' = vaultId
                 /\ Timestamp d' = Timestamp d /\ Tx d' = Tx d /\ TxHash d' = TxHash d)
  /\ (forall other, other <> CreateVault.log_file ->
        fs (final r) !! other = fs st !! other).
Proof.
  intros r patched Hread Hw Hcodec.
  destruct (patchLastVaultId_run st vaultId earlier d Hread Hw) as (f & Hc & Hr & Hrun).
  subst r. rewrite Hrun. unfold outcome, final. simpl.
  split; [reflexivity|]. split.
  { apply read_log_insert; [exact Hr|]. rewrite Hc. exact Hcodec. }
  split.
  { exists f. split; [apply lookup_insert_eq | exact Hc]. }
  split.
  { unfold patched. rewrite !length_app. reflexivity. }
  split.
  { intros i Hi. unfold patched. rewrite !lookup_app_l by exact Hi. reflexivity. }
  split.
  { exists (set_VaultID d vaultId). unfold patched. rewrite last_snoc.
    repeat split; reflexivity. }
  intros other Hne. apply lookup_insert_ne. congruence.
Qed.

Section PatchWitness.
#[local] Existing Instance Sim.env.

Lemma patchLastVaultId_frame_witness :
  let tx := {| From := "0xa11ce"; To := "0xb0b"; Value := 5; Gas := 21000;
               GasPrice := 1000; Nonce := 0; ChainID := 1; Data := "0x" |} in
  let d0 := {| Timestamp := "2024-01-01T00:00:00Z"; Tx := tx; TxHash := "0xabc";
               VaultID := 3 |} in
  let d1 := {| Timestamp := "2024-01-02T00:00:00Z"; Tx := tx; TxHash := "0xdef";
               VaultID := -1 |} in
  let st : State :=
    {| world := world (Sim.start 1);
       fs := {[ CreateVault.log_file :=
                  {| content := Sim.putLog [d0; d1] +:+ String "010" "";
                     readable := true; writable := true |} ]} |} in
  let r := CreateVault.patchLastVaultId 42 st in
  outcome r = Return tt
  /\ read_log Unmarshal (fs (final r)) CreateVault.log_file
     = Some [d0; set_VaultID d1 42].
Proof.
  intros tx d0 d1 st r.
  destruct (patchLastVaultId_frame st 42 [d0] d1) as (H1 & H2 & _).
  - vm_compute; reflexivity.
  - vm_compute; reflexivity.
  - vm_compute; reflexivity.
  - split; [exact H1 | exact H2].
Defined.

End PatchWitness.

(** ** [getVaultId] *)

Section GetVaultId.

Lemma getVaultId_skip (before rest : list service.Log) :
  Forall (fun log => service.Contract log <> "Cdpmanager") before ->
  CreateVault.getVaultId (before ++ rest) = CreateVault.getVaultId rest.
Proof.
  induction 1 as [|log before Hlog _ IH]; simpl; [reflexivity|].
  destruct (String.eqb_spec (service.Contract log) "Cdpmanager"); [contradiction|].
  exact IH.
Qed.

Lemma getVaultId_none (logs : list service.Log) :
  Forall (fun log => service.Contract log <> "Cdpmanager") logs ->
  CreateVault.getVaultId logs = Ok 0.
Proof.
  intros Hno. rewrite <- (app_nil_r logs). rewrite getVaultId_skip by exact Hno.
  reflexivity.
Qed.

(** The first Cdpmanager entry decides. *)
Lemma getVaultId_first (before after : list service.Log) (entry : service.Log)
    (payload : gmap string string) :
  Forall (fun log => service.Contract log <> "Cdpmanager") before ->
  service.Contract entry = "Cdpmanager" ->
  service.Decoded entry = Some payload ->
  CreateVault.getVaultId (before ++ entry :: after) =
    match payload !! "Cdp" with
    | None => Err "failed to get vault id from log"
    | Some vaultIdStr =>
        match strconv.Atoi vaultIdStr with
        | Ok vaultId => Ok vaultId
        | _ => Err "failed to convert vault id to int"
        end
    end.
Proof.
  intros Hno Hc Hd. rewrite getVaultId_skip by exact Hno.
  simpl. rewrite Hc, Hd. reflexivity.
Qed.

(** What [strconv.Atoi] accepts: an optional sign and digits, and a value
    that fits 64 bits. *)
Lemma digits_syntax (s : string) (acc : Z) :
  is_Some (strconv.digits acc s) <-> forallb is_digit (list_ascii_of_string s) = true.
Proof.
  revert acc. induction s as [|c s IH]; intros acc; simpl.
  - split; [reflexivity | intros _; eexists; reflexivity].
  - unfold strconv.digit_value, is_digit.
    assert (Hd : (48 <=? Z.of_N (N_of_ascii c)) && (Z.of_N (N_of_ascii c) <=? 57)
                 = ((48 <=? N_of_ascii c)%N && (N_of_ascii c <=? 57)%N)).
    { destruct (Z.leb_spec 48 (Z.of_N (N_of_ascii c))),
               (Z.leb_spec (Z.of_N (N_of_ascii c)) 57),
               (N.leb_spec 48 (N_of_ascii c)),
               (N.leb_spec (N_of_ascii c) 57); simpl; try reflexivity; lia. }
    rewrite Hd.
    destruct ((48 <=? N_of_ascii c)%N && (N_of_ascii c <=? 57)%N); simpl.
    + apply IH.
    + split; [intros [? ?]; discriminate | discriminate].
Qed.

Lemma signed_decimal_syntax (s : string) :
  is_Some (strconv.signed_decimal s) <-> decimal_syntax s = true.
Proof.
  unfold strconv.signed_decimal, decimal_syntax.
  destruct s as [|c rest]; [split; [intros [? ?]|]; discriminate|].
  assert (Hbody : forall (neg : bool) (body : string),
             is_Some (match body with
                      | EmptyString => None
                      | _ => option_map (fun n => if neg then - n else n)
                               (strconv.digits 0 body)
                      end)
             <-> negb (String.eqb body "") && forallb is_digit (list_ascii_of_string body) = true).
  { intros neg body. destruct body as [|b body]; [split; [intros [? ?]|]; discriminate|].
    change (negb (String.eqb (String b body) "")) with true. rewrite andb_true_l.
    rewrite <- (digits_syntax _ 0).
    destruct (strconv.digits 0 (String b body)); simpl;
      split; intros [? ?]; try discriminate; eexists; reflexivity. }
  destruct (Ascii.eqb c "-"); [apply (Hbody true)|].
  destruct (Ascii.eqb c "+"); [apply (Hbody false)|].
  apply (Hbody false (String c rest)).
Qed.

Lemma Atoi_accepts (s : string) (n : Z) :
  strconv.Atoi s = Ok n <->
  strconv.signed_decimal s = Some n /\ - 2 ^ 63 <= n < 2 ^ 63.
Proof.
  unfold strconv.Atoi. destruct (strconv.signed_decimal s) as [m|].
  - destruct (Z.leb_spec (- 2 ^ 63) m), (Z.ltb_spec m (2 ^ 63)); simpl;
      split; try (intros [= <-]; split; [reflexivity|lia]);
      try (intros [[= ->] ?]; try reflexivity; lia); try discriminate.
  - split; [discriminate | intros [? _]; discriminate].
Qed.

Lemma Atoi_decimal (v : string) :
  is_ok (strconv.Atoi v) = true <->
  decimal_syntax v = true
  /\ exists n, strconv.signed_decimal v = Some n /\ - 2 ^ 63 <= n < 2 ^ 63.
Proof.
  split.
  - destruct (strconv.Atoi v) as [n| |] eqn:E; try discriminate. intros _.
    apply Atoi_accepts in E. destruct E as [Hn Hr]. split.
    + apply signed_decimal_syntax. rewrite Hn. eexists; reflexivity.
    + exists n. split; assumption.
  - intros (_ & n & Hn & Hr).
    assert (E : strconv.Atoi v = Ok n) by (apply Atoi_accepts; split; assumption).
    rewrite E. reflexivity.
Qed.

End GetVaultId.

(** C10, as stated, fails: the value 9223372036854775808 is a decimal
    integer, and [getVaultId] returns an error for it, because it does not
    fit Go's [int]. *)
Lemma getVaultId_rejects_large_integer :
  decimal_syntax "9223372036854775808" = true
  /\ strconv.signed_decimal "9223372036854775808" = Some (2 ^ 63)
  /\ CreateVault.getVaultId
       [ {| service.Contract := "Cdpmanager";
            service.Decoded := Some {[ "Cdp" := "9223372036854775808" ]} |} ]
     = Err "failed to convert vault id to int".
Proof. vm_compute. repeat split; reflexivity. Qed.

(** C10, amended: without a Cdpmanager entry [getVaultId] returns 0 and no
    error, and the last step of the vault creation then writes 0 (not -1)
    into the last log entry.  With a Cdpmanager entry whose decoded payload
    is present, the first such entry decides: the result is an error
    exactly when the payload has no "Cdp" key or [strconv.Atoi] rejects its
    value (it is not an optionally signed decimal integer that fits 64
    bits), and otherwise it is the integer [Atoi] reads. *)
Theorem getVaultId_result `{Env} (logs : list service.Log) :
  (Forall (fun log => service.Contract log <> "Cdpmanager") logs ->
     CreateVault.getVaultId logs = Ok 0
     /\ forall (st : State) earlier d,
          read_log Unmarshal (fs st) CreateVault.log_file = Some (earlier ++ [d]) ->
          may_write (fs st) CreateVault.log_file = true ->
          let r := bind (orFatal "Failed to vault id: " (CreateVault.getVaultId logs))
                        CreateVault.patchLastVaultId st in
          outcome r = Return tt
          /\ exists f, fs (final r) !! CreateVault.log_file = Some f
                       /\ content f = MarshalIndent (earlier ++ [set_VaultID d 0]))
  /\ (forall before entry after payload,
        logs = before ++ entry :: after ->
        Forall (fun log => service.Contract log <> "Cdpmanager") before ->
        service.Contract entry = "Cdpmanager" ->
        service.Decoded entry = Some payload ->
        (is_err (CreateVault.getVaultId logs) = true <->
           payload !! "Cdp" = None
           \/ exists v, payload !! "Cdp" = Some v /\ is_ok (strconv.Atoi v) = false)
        /\ (forall v n, payload !! "Cdp" = Some v -> strconv.Atoi v = Ok n ->
              CreateVault.getVaultId logs = Ok n)
        /\ (is_err (CreateVault.getVaultId logs) = false ->
              exists v n, payload !! "Cdp" = Some v /\ strconv.Atoi v = Ok n
                          /\ CreateVault.getVaultId logs = Ok n))
  /\ (forall v, is_ok (strconv.Atoi v) = true <->
        decimal_syntax v = true
        /\ exists n, strconv.signed_decimal v = Some n /\ - 2 ^ 63 <= n < 2 ^ 63).
Proof.
  split; [|split; [|apply Atoi_decimal]].
  - intros Hno. rewrite (getVaultId_none logs Hno). split; [reflexivity|].
    intros st earlier d Hread Hw r.
    destruct (patchLastVaultId_run st 0 earlier d Hread Hw) as (f & Hc & _ & Hrun).
    subst r. unfold bind. cbn [orFatal ret]. rewrite Hrun.
    split; [reflexivity|]. exists f. split; [apply lookup_insert_eq | exact Hc].
  - intros before entry after payload -> Hno Hc Hd.
    rewrite (getVaultId_first before after entry payload Hno Hc Hd).
    destruct (payload !! "Cdp") as [v|] eqn:Ecdp.
    + destruct (strconv.Atoi v) as [n|e|e] eqn:Eatoi; simpl.
      * split; [split; [discriminate|]|].
        { intros [?|(v' & [= <-] & Hv)]; [discriminate|].
          rewrite Eatoi in Hv. discriminate. }
        split; [intros v' n' [= <-]; rewrite Eatoi; intros [= <-]; reflexivity|].
        intros _. exists v, n. auto.
      * split; [split; [|reflexivity]|].
        { intros _. right. exists v. rewrite Eatoi. auto. }
        split; [intros v' n' [= <-]; rewrite Eatoi; discriminate|discriminate].
      * split; [split; [|reflexivity]|].
        { intros _. right. exists v. rewrite Eatoi. auto. }
        split; [intros v' n' [= <-]; rewrite Eatoi; discriminate|discriminate].
    + simpl. split; [split; [auto|reflexivity]|].
      split; [intros v n [=]|discriminate].
Qed.

Section VaultIdWitness.
#[local] Existing Instance Sim.env.

Lemma getVaultId_result_witness :
  CreateVault.getVaultId
    [ {| service.Contract := "Vat"; service.Decoded := None |};
      {| service.Contract := "Cdpmanager";
         service.Decoded := Some {[ "Cdp" := "42"; "Own" := "0xa11ce" ]} |} ] = Ok 42
  /\ CreateVault.getVaultId
       [ {| service.Contract := "Vat"; service.Decoded := None |} ] = Ok 0.
Proof.
  split.
  - destruct (getVaultId_result
                [ {| service.Contract := "Vat"; service.Decoded := None |};
                  {| service.Contract := "Cdpmanager";
                     service.Decoded := Some {[ "Cdp" := "42"; "Own" := "0xa11ce" ]} |} ])
      as (_ & Hsome & _).
    destruct (Hsome [ {| service.Contract := "Vat"; service.Decoded := None |} ]
                {| service.Contract := "Cdpmanager";
                   service.Decoded := Some {[ "Cdp" := "42"; "Own" := "0xa11ce" ]} |}
                [] {[ "Cdp" := "42"; "Own" := "0xa11ce" ]}) as (_ & Hval & _).
    + reflexivity.
    + repeat constructor; discriminate.
    + reflexivity.
    + reflexivity.
    + apply (Hval "42" 42); vm_compute; reflexivity.
  - destruct (getVaultId_result
                [ {| service.Contract := "Vat"; service.Decoded := None |} ])
      as (Hnone & _).
    destruct Hnone as [H0 _]; [repeat constructor; discriminate | exact H0].
Defined.

End VaultIdWitness.

(** A Cdpmanager entry without a decoded payload: the dereference of the
    nil pointer panics. *)
Lemma getVaultId_nil_payload (before after : list service.Log) (entry : service.Log) :
  Forall (fun log => service.Contract log <> "Cdpmanager") before ->
  service.Contract entry = "Cdpmanager" ->
  service.Decoded entry = None ->
  CreateVault.getVaultId (before ++ entry :: after)
  = Panic "invalid memory address or nil pointer dereference".
Proof.
  intros Hno Hc Hd. rewrite getVaultId_skip by exact Hno.
  simpl. rewrite Hc, Hd. reflexivity.
Qed.

(** ** One pass over the steps of a plan *)

Ltac silent_step :=
  first
    [ apply silent_ret | apply silent_Fatalf | apply silent_panic
    | apply silent_out_of_fuel | apply silent_call | apply silent_get_world
    | apply silent_get_fs | apply silent_put_fs | apply silent_orFatal
    | apply silent_SaveTransactionDetailsTo; intros; reflexivity
    | apply silent_waitForTransactionReceipt; intros; reflexivity
    | apply silent_emit; solve [ reflexivity | auto ]
    | apply silent_bind; [ | intros ? ]
    | match goal with
      | |- silent _ (match ?x with _ => _ end) => destruct x
      end ].

Ltac silent_tac := repeat silent_step.

Section Steps.
Context `{Env}.
Variable cfg : Config.
Variable fuel : nat.

Lemma stops_submitted number data : stops (submitted number data).
Proof. repeat split; intros; left; split; try reflexivity; discriminate. Qed.

Lemma stops_returns_hash tx : stops (returns_hash tx).
Proof. repeat split; intros; discriminate. Qed.

Ltac quiet_bind Hstops :=
  apply always_bind_silent; [ solve [silent_tac] | apply Hstops | intros ? ].

Lemma create_submitStep_broadcasts number data :
  always pick_broadcast (CreateVault.submitStep cfg fuel number data)
    (submitted number data).
Proof.
  unfold CreateVault.submitStep, CreateVault.SaveTransactionDetails.
  repeat quiet_bind stops_submitted.
  apply always_bind_emit.
  match goal with
  | |- always _ _ (fun r xs => submitted _ _ r (omap _ [Broadcast _ ?tx] ++ xs)) =>
      apply always_weaken with (Q := returns_hash tx)
  end.
  - repeat quiet_bind stops_returns_hash. apply always_ret.
    split; [reflexivity|]. intros h [= <-]. reflexivity.
  - intros r xs [-> Hh]. right. eexists. split; [reflexivity|]. split; [reflexivity|].
    exact Hh.
Qed.

Lemma repay_submitStep_broadcasts number data :
  always pick_broadcast (RepayVault.submitStep cfg fuel number data)
    (submitted number data).
Proof.
  unfold RepayVault.submitStep, RepayVault.SaveTransactionDetails.
  repeat quiet_bind stops_submitted.
  apply always_bind_emit.
  match goal with
  | |- always _ _ (fun r xs => submitted _ _ r (omap _ [Broadcast _ ?tx] ++ xs)) =>
      apply always_weaken with (Q := returns_hash tx)
  end.
  - repeat quiet_bind stops_returns_hash.
    match goal with |- always _ (match ?x with _ => _ end) _ => destruct x end.
    + quiet_bind stops_returns_hash. apply always_ret.
      split; [reflexivity|]. intros h [= <-]. reflexivity.
    + quiet_bind stops_returns_hash. apply always_ret.
      split; [reflexivity|]. intros h [= <-]. reflexivity.
    + intros st. split; [reflexivity|discriminate].
  - intros r xs [-> Hh]. right. eexists. split; [reflexivity|]. split; [reflexivity|].
    exact Hh.
Qed.

Lemma create_submitStep_labels number data :
  silent pick_label (CreateVault.submitStep cfg fuel number data).
Proof.
  unfold CreateVault.submitStep, CreateVault.SaveTransactionDetails. silent_tac.
Qed.

Lemma repay_submitStep_labels number data :
  silent pick_label (RepayVault.submitStep cfg fuel number data).
Proof.
  unfold RepayVault.submitStep, RepayVault.SaveTransactionDetails. silent_tac.
Qed.

End Steps.

(** The pass over the steps, for any way to submit the current one. *)
Section Pass.
Context `{Env}.
Variable submit : Z -> service.PreparedTx -> M string.
#[local] Abbreviation passOver := (passOver submit).

Lemma bind_ext {A B} (m : M A) (f f' : A -> M B) (st : State) :
  (forall a st', f a st' = f' a st') -> bind m f st = bind m f' st.
Proof.
  intros Hf. unfold bind. destruct (m st) as [[r st'] evs].
  destruct r; try reflexivity. rewrite Hf. reflexivity.
Qed.

Lemma always_bind_ret {X A B} (g : Event -> option X) (a : A) (f : A -> M B)
    (Q : exit B -> list X -> Prop) :
  always g (f a) Q -> always g (bind (ret a) f) Q.
Proof.
  intros Hf st. specialize (Hf st). unfold bind, ret, outcome, events in *.
  destruct (f a st) as [[r st'] evs]. exact Hf.
Qed.

Variable stepNumber : Z.
Hypothesis stepNumber_fits : int64 (stepNumber - 1) = stepNumber - 1.

Hypothesis submit_broadcasts :
  forall number data, always pick_broadcast (submit number data) (submitted number data).
Hypothesis submit_labels :
  forall number data, silent pick_label (submit number data).

(** Past the current step nothing is broadcast. *)
Lemma pass_after (steps : list service.Step) (n0 : Z) (h0 : string) :
  stepNumber - 1 < n0 ->
  always pick_broadcast (passOver stepNumber n0 steps h0)
    (fun r bs => bs = [] /\ forall h, r = Return h -> h = h0).
Proof.
  revert n0 h0. induction steps as [|step rest IH]; intros n0 h0 Hlt; simpl.
  - apply always_ret. split; [reflexivity|]. intros h [= <-]. reflexivity.
  - assert (Hstops : stops (A := string)
              (fun r (bs : list (Z * SignedTx)) =>
                 bs = [] /\ forall h, r = Return h -> h = h0))
      by (repeat split; intros; discriminate).
    apply always_bind_silent; [apply silent_orFatal|exact Hstops|intros data].
    apply always_bind_silent; [apply silent_emit; reflexivity|exact Hstops|intros _].
    rewrite stepNumber_fits.
    destruct (Z.eqb_spec (stepNumber - 1) n0) as [Heq|_]; [lia|].
    apply always_bind_ret. apply IH. lia.
Qed.

(** From the current step or before it: no broadcast and no return, or
    the one broadcast of the current step. *)
Lemma pass_current (steps : list service.Step) (n0 : Z) (h0 : string) :
  n0 <= stepNumber - 1 < n0 + Z.of_nat (length steps) ->
  always pick_broadcast (passOver stepNumber n0 steps h0)
    (fun r bs =>
       (bs = [] /\ forall h, r <> Return h)
       \/ exists step data tx,
            steps !! Z.to_nat (stepNumber - 1 - n0) = Some step
            /\ service.AsPreparedTx step = Ok data
            /\ bs = [(stepNumber - 1, tx)]
            /\ tx_to (signed tx)
               = HexToAddress (service.To (service.MethodParameters_ data))
            /\ forall h, r = Return h -> Hash_Hex tx = h).
Proof.
  revert n0 h0. induction steps as [|step rest IH]; intros n0 h0 Hin; simpl in *.
  - lia.
  - destruct (service.AsPreparedTx step) as [data|e|e] eqn:Estep; cbn [orFatal].
    2,3: intros st; left; split; [reflexivity|discriminate].
    apply always_bind_ret.
    apply always_bind_silent; [apply silent_emit; reflexivity| |intros _].
    { repeat split; intros; left; split; try reflexivity; discriminate. }
    rewrite stepNumber_fits.
    destruct (Z.eqb_spec (stepNumber - 1) n0) as [Heq|Hne].
    + apply always_bind.
      eapply always_weaken; [apply submit_broadcasts|].
      intros r xs [[-> Hnr]|(tx & -> & Hto & Hh)].
      * destruct r as [a| | |]; [destruct (Hnr a); reflexivity| | |];
          left; split; try reflexivity; discriminate.
      * destruct r as [a| | |].
        2-4: right; exists step, data, tx; rewrite Heq, Z.sub_diag;
             repeat split; try assumption; try reflexivity; discriminate.
        eapply always_weaken; [apply (pass_after rest (n0 + 1) a); lia|].
        intros r' xs' [-> Hr']. right. exists step, data, tx.
        rewrite Heq, Z.sub_diag. repeat split; try assumption; try reflexivity.
        intros h Hret. rewrite (Hr' h Hret). apply Hh. reflexivity.
    + apply always_bind_ret.
      eapply always_weaken; [apply (IH (n0 + 1) h0); lia|].
      intros r xs [Hnone|(step' & data' & tx & Hlook & Hrest)]; [left; exact Hnone|].
      right. exists step', data', tx. split; [|exact Hrest].
      replace (Z.to_nat (stepNumber - 1 - n0))
        with (S (Z.to_nat (stepNumber - 1 - (n0 + 1)))) by lia.
      exact Hlook.
Qed.

(** A pass that returns has printed every label, in order. *)
Lemma pass_labels (steps : list service.Step) (n0 : Z) (h0 : string) :
  always pick_label (passOver stepNumber n0 steps h0)
    (fun r ls =>
       forall h, r = Return h ->
         ls = imap (fun i s => (n0 + Z.of_nat i + 1, step_label s)) steps).
Proof.
  revert n0 h0. induction steps as [|step rest IH]; intros n0 h0.
  - apply always_ret. reflexivity.
  - cbn [passOver].
    destruct (service.AsPreparedTx step) as [data|e|e] eqn:Estep; cbn [orFatal].
    2,3: intros st h; discriminate.
    set (lbl := default "" (service.Label data !! "en-US")).
    assert (Himap :
              imap (fun i s => (n0 + Z.of_nat i + 1, step_label s)) (step :: rest)
              = (n0 + 1, lbl)
                :: imap (fun i s => (n0 + 1 + Z.of_nat i + 1, step_label s)) rest).
    { cbn [imap]. unfold step_label at 1. rewrite Estep. f_equal.
      - f_equal. lia.
      - apply imap_ext. intros i s _. simpl. f_equal. lia. }
    apply always_weaken with
      (Q := fun r ls =>
              forall h, r = Return h ->
                ls = (n0 + 1, lbl)
                     :: imap (fun i s => (n0 + 1 + Z.of_nat i + 1, step_label s)) rest).
    2: { intros r xs Hxs h Hret. rewrite Himap. exact (Hxs h Hret). }
    apply always_bind_ret. apply always_bind_emit.
    assert (Hrest : forall h1,
               always pick_label (passOver stepNumber (n0 + 1) rest h1)
                 (fun r xs =>
                    forall h, r = Return h ->
                      omap pick_label [Labelled (n0 + 1) lbl] ++ xs
                      = (n0 + 1, lbl)
                        :: imap (fun i s => (n0 + 1 + Z.of_nat i + 1, step_label s)) rest)).
    { intros h1. eapply always_weaken; [apply (IH (n0 + 1) h1)|].
      intros r xs Hxs h Hret. rewrite (Hxs h Hret). reflexivity. }
    destruct (int64 (stepNumber - 1) =? n0).
    + apply always_bind_silent; [apply submit_labels| |intros h1; apply Hrest].
      repeat split; intros; discriminate.
    + apply always_bind_ret. apply Hrest.
Qed.

End Pass.

Section Polls.
Context `{Env}.
Variable cfg : Config.
Variable fuel : nat.

Lemma int64_small (z : Z) : - 2 ^ 63 <= z < 2 ^ 63 -> int64 z = z.
Proof. intros Hz. unfold int64. rewrite Z.mod_small; lia. Qed.

Lemma create_processSteps_pass stepNumber number steps txHash st :
  CreateVault.processSteps cfg fuel stepNumber number steps txHash st
  = passOver (CreateVault.submitStep cfg fuel) stepNumber number steps txHash st.
Proof.
  revert number txHash st. induction steps as [|step rest IH]; intros; simpl;
    [reflexivity|].
  apply bind_ext; intros data st1. apply bind_ext; intros _ st2.
  apply bind_ext; intros h st3. apply IH.
Qed.

Lemma repay_processSteps_pass stepNumber number steps txHash st :
  RepayVault.processSteps cfg fuel stepNumber number steps txHash st
  = passOver (RepayVault.submitStep cfg fuel) stepNumber number steps txHash st.
Proof.
  revert number txHash st. induction steps as [|step rest IH]; intros; simpl;
    [reflexivity|].
  apply bind_ext; intros data st1. apply bind_ext; intros _ st2.
  apply bind_ext; intros h st3. apply IH.
Qed.

Lemma pass_one_step (submit : Z -> service.PreparedTx -> M string)
    (plan : service.ChainActivity) (st : State) :
  (forall number data, always pick_broadcast (submit number data) (submitted number data)) ->
  (forall number data, silent pick_label (submit number data)) ->
  1 <= service.StepNumber plan <= Z.of_nat (length (service.Steps plan)) ->
  service.StepNumber plan < 2 ^ 63 ->
  one_step_per_poll plan
    (passOver submit (service.StepNumber plan) 0 (service.Steps plan) "" st).
Proof.
  intros Hb Hl Hrange Hint.
  assert (Hfits : int64 (service.StepNumber plan - 1) = service.StepNumber plan - 1)
    by (apply int64_small; lia).
  pose proof (pass_current submit (service.StepNumber plan) Hfits Hb
                (service.Steps plan) 0 "" ltac:(lia) st) as Hcur.
  pose proof (pass_labels submit (service.StepNumber plan) Hl
                (service.Steps plan) 0 "" st) as Hlab.
  cbv beta in Hcur, Hlab. unfold one_step_per_poll, broadcasts, labels.
  set (r := passOver submit _ _ _ _ st) in *.
  rewrite Z.sub_0_r in Hcur.
  destruct Hcur as [[Hnone Hnr]|(step & data & tx & Hlook & Hdata & Hbs & Hto & Hh)].
  - rewrite Hnone. split; [intros n tx []|]. split; [simpl; lia|].
    intros h Hret. destruct (Hnr h Hret).
  - rewrite Hbs. split.
    { intros n tx' [[= <- <-]|[]]. reflexivity. }
    split; [simpl; lia|].
    intros h Hret. exists step, data, tx.
    repeat split; try assumption; try reflexivity.
    + apply Hh, Hret.
    + rewrite (Hlab h Hret). apply imap_ext. intros i s _. simpl. f_equal.
Qed.

End Polls.

(** C3, amended: for a plan whose step number points into its steps, one pass of
    either example over the steps never broadcasts a step other than the
    current one and never more than one transaction; a pass that is not cut
    short by a fatal error broadcasts exactly one transaction, built from
    the current step, and prints the label of every step. *)
Theorem poll_submits_current_step_only `{Env}
    (cfg : Config) (fuel : nat) (plan : service.ChainActivity) (st : State) :
  1 <= service.StepNumber plan <= Z.of_nat (length (service.Steps plan)) ->
  service.StepNumber plan < 2 ^ 63 ->
  one_step_per_poll plan
    (CreateVault.processSteps cfg fuel (service.StepNumber plan) 0
       (service.Steps plan) "" st)
  /\ one_step_per_poll plan
       (RepayVault.processSteps cfg fuel (service.StepNumber plan) 0
          (service.Steps plan) "" st).
Proof.
  intros Hrange Hint. split.
  - rewrite create_processSteps_pass.
    apply pass_one_step; try assumption.
    + apply create_submitStep_broadcasts.
    + apply create_submitStep_labels.
  - rewrite repay_processSteps_pass.
    apply pass_one_step; try assumption.
    + apply repay_submitStep_broadcasts.
    + apply repay_submitStep_labels.
Qed.

Section PollWitness.
#[local] Existing Instance Sim.env.

(** C3, as stated, fails: a plan of two steps whose step number is 2 and
    whose first step is not a prepared transaction.  The pass stops with
    [log.Fatalf] at the first step, in both examples, and nothing is signed
    or broadcast.  (A node that does not answer the nonce query has the
    same effect on a plan of prepared transactions.) *)
Lemma poll_without_broadcast :
  let plan := {| service.NumberOfSteps := 2; service.StepNumber := 2;
                 service.Steps :=
                   [ {| service.AsPreparedTx := Err "not a PreparedTx" |}; Sim.step ] |} in
  let create := CreateVault.processSteps Sim.config 10 (service.StepNumber plan) 0
                  (service.Steps plan) "" (Sim.start 2) in
  let repay := RepayVault.processSteps Sim.config 10 (service.StepNumber plan) 0
                 (service.Steps plan) "" (Sim.start 2) in
  let down := CreateVault.processSteps Sim.config 10 1 0 [Sim.step] "" (Sim.node_down 1) in
  1 <= service.StepNumber plan <= Z.of_nat (length (service.Steps plan))
  /\ outcome create = Fatal "Failed to convert step to prepared tx: not a PreparedTx"
  /\ broadcasts (events create) = []
  /\ outcome repay = Fatal "Failed to convert step to prepared tx: not a PreparedTx"
  /\ broadcasts (events repay) = []
  /\ outcome down = Fatal "Failed to get transaction count: connection refused"
  /\ broadcasts (events down) = [].
Proof. vm_compute. repeat split; try discriminate; reflexivity. Qed.

Lemma poll_submits_current_step_only_witness :
  let plan := Sim.plan (world (Sim.start 2)) in
  let r := CreateVault.processSteps Sim.config 10 (service.StepNumber plan) 0
             (service.Steps plan) "" (Sim.start 2) in
  outcome r = Return "0x0"
  /\ exists tx, broadcasts (events r) = [(0, tx)] /\ Hash_Hex tx = "0x0".
Proof.
  intros plan r.
  assert (Hret : outcome r = Return "0x0") by (vm_compute; reflexivity).
  split; [exact Hret|].
  destruct (poll_submits_current_step_only Sim.config 10 plan (Sim.start 2))
    as [(_ & _ & Hone) _].
  - vm_compute. split; discriminate.
  - reflexivity.
  - destruct (Hone "0x0" Hret) as (step & data & tx & _ & _ & Hbs & _ & Hhash & _).
    exists tx. split; [exact Hbs | exact Hhash].
Defined.

End PollWitness.

Section LargeValue.
#[local] Existing Instance Sim.env.

(** A step worth ten ether (in wei) does not fit Go's [int]: the vault
    creation, which reads the value with [strconv.Atoi], stops before
    signing, where the repayment, which reads it into a [big.Int], goes
    on and broadcasts. *)
Lemma value_beyond_int64 :
  let data := {| service.Label := ∅;
                 service.MethodParameters_ :=
                   {| service.To := "0xb0b"; service.Calldata := "0x";
                      service.Value := "10000000000000000000" |};
                 service.GasUseEstimate := 21000 |} in
  outcome (CreateVault.submitStep Sim.config 10 0 data (Sim.start 1))
  = Fatal "failed to convert vault id to int"
  /\ broadcasts (events (CreateVault.submitStep Sim.config 10 0 data (Sim.start 1))) = []
  /\ outcome (RepayVault.submitStep Sim.config 10 0 data (Sim.start 1)) = Return "0x0"
  /\ length (broadcasts (events (RepayVault.submitStep Sim.config 10 0 data (Sim.start 1))))
     = 1%nat.
Proof. vm_compute. repeat split; reflexivity. Qed.

End LargeValue.

(** ** The response classifier *)

Section Classifier.
Context {T : Type} `{JT : JSON T} `{JU : JSON service.UserError} `{JE : JSON service.Error}.

(** The order of the three checks, in the words of the specification. *)
Lemma classify_order (body : string) :
  let u := fst (json_Unmarshal body (zero (T := service.UserError))) in
  let eu := snd (json_Unmarshal body (zero (T := service.UserError))) in
  let g := fst (json_Unmarshal body (zero (T := service.Error))) in
  let eg := snd (json_Unmarshal body (zero (T := service.Error))) in
  let user_shape := eu = None /\ (0 < size (service.Messages u))%nat in
  let generic_shape := eg = None /\ service.Msg g <> "" in
  (user_shape -> classify body = UserError (service.Messages u))
  /\ (~ user_shape -> generic_shape ->
        classify body = APIError (service.Msg g) (service.Reasons g))
  /\ (~ user_shape -> ~ generic_shape -> classify body = UnhandledError body).
Proof.
  unfold classify.
  destruct (json_Unmarshal body (zero (T := service.UserError))) as [u eu].
  destruct (json_Unmarshal body (zero (T := service.Error))) as [g eg]. simpl.
  destruct (bool_decide_reflect (eu = None)) as [Heu|Heu];
    destruct (Nat.ltb_spec 0 (size (service.Messages u))) as [Hsz|Hsz];
    destruct (bool_decide_reflect (eg = None)) as [Heg|Heg];
    destruct (String.eqb_spec (service.Msg g) "") as [Hmsg|Hmsg]; simpl;
    repeat split; try reflexivity; intros; try tauto; try lia;
    match goal with
    | Hu : ~ _ |- _ => exfalso; apply Hu; split; (assumption || lia)
    | _ => idtac
    end.
Qed.

Lemma Service_HandleAPIResponse_error (resp : http.Response) (body : string) (s : T) :
  ~ (200 <= http.StatusCode resp < 300) ->
  http.Body resp = Ok body ->
  exists e ops,
    Service.HandleAPIResponse (Some resp) s = (s, Some e, ops)
    /\ kind_of_details (Service.Details e) = Some (classify body)
    /\ Service.StatusCode e = http.StatusCode resp
    /\ Service.RequestID e = http.X_Request_ID resp
    /\ Service.Path e = http.Request_URL_Path resp
    /\ Service.Method e = http.Request_Method resp
    /\ Service.Message e = match classify body with
                           | UserError _ => "User error"
                           | APIError msg _ => msg
                           | UnhandledError _ => "Unhandled error"
                           end
    /\ hd_error ops = Some ReadAll
    /\ times ReadAll ops = 1%nat.
Proof.
  intros Hstatus Hbody. unfold Service.HandleAPIResponse, classify. rewrite Hbody.
  destruct (Z.leb_spec 200 (http.StatusCode resp)),
           (Z.ltb_spec (http.StatusCode resp) 300); simpl; try lia;
  destruct (json_Unmarshal body (zero (T := service.UserError))) as [u eu];
  destruct (json_Unmarshal body (zero (T := service.Error))) as [g eg];
  destruct (bool_decide (eu = None) && (0 <? size (service.Messages u))%nat);
  try destruct (bool_decide (eg = None) && negb (String.eqb (service.Msg g) ""));
  eexists; eexists; repeat split.
Qed.

Lemma Examples_HandleAPIResponse_error (resp : http.Response) (body : string) (s : T) :
  ~ (200 <= http.StatusCode resp < 300) ->
  http.Body resp = Ok body ->
  exists e ops,
    Examples.HandleAPIResponse (Some resp) s = Ok (s, Some (Examples.API e), ops)
    /\ kind_of_details (Examples.Details e) = Some (classify body)
    /\ Examples.StatusCode e = http.StatusCode resp
    /\ Examples.Message e = match classify body with
                            | UserError _ => "User error"
                            | APIError _ _ => "API error"
                            | UnhandledError _ => "Unhandled error"
                            end
    /\ hd_error ops = Some ReadAll
    /\ times ReadAll ops = 1%nat.
Proof.
  intros Hstatus Hbody. unfold Examples.HandleAPIResponse, classify. rewrite Hbody.
  destruct (Z.leb_spec 200 (http.StatusCode resp)),
           (Z.ltb_spec (http.StatusCode resp) 300); simpl; try lia;
  destruct (json_Unmarshal body (zero (T := service.UserError))) as [u eu];
  destruct (json_Unmarshal body (zero (T := service.Error))) as [g eg];
  destruct (bool_decide (eu = None) && (0 <? size (service.Messages u))%nat);
  try destruct (bool_decide (eg = None) && negb (String.eqb (service.Msg g) ""));
  eexists; eexists; repeat split.
Qed.

End Classifier.

(** C5: for a status of 300 or more and a body that was read, both
    classifiers return an [APIError] whose details are the classification
    of the body in the fixed order: the user-error shape with at least one
    message first (all of the decoded locale-to-message map is kept), the
    generic shape with a non-empty [msg] second (the [msg] and all of the
    reasons are kept), and the raw body text last.  The caller's success
    value is untouched; the body is read once. *)
Theorem HandleAPIResponse_classifies_errors
    {T : Type} `{JT : JSON T} `{JU : JSON service.UserError} `{JE : JSON service.Error}
    (resp : http.Response) (body : string) (successResponse : T) :
  300 <= http.StatusCode resp ->
  http.Body resp = Ok body ->
  let u := fst (json_Unmarshal body (zero (T := service.UserError))) in
  let eu := snd (json_Unmarshal body (zero (T := service.UserError))) in
  let g := fst (json_Unmarshal body (zero (T := service.Error))) in
  let eg := snd (json_Unmarshal body (zero (T := service.Error))) in
  let user_shape := eu = None /\ (0 < size (service.Messages u))%nat in
  let generic_shape := eg = None /\ service.Msg g <> "" in
  (exists e ops,
     Service.HandleAPIResponse (Some resp) successResponse = (successResponse, Some e, ops)
     /\ kind_of_details (Service.Details e) = Some (classify body)
     /\ Service.StatusCode e = http.StatusCode resp
     /\ (generic_shape -> ~ user_shape -> Service.Message e = service.Msg g)
     /\ times ReadAll ops = 1%nat)
  /\ (exists e ops,
        Examples.HandleAPIResponse (Some resp) successResponse
        = Ok (successResponse, Some (Examples.API e), ops)
        /\ kind_of_details (Examples.Details e) = Some (classify body)
        /\ Examples.StatusCode e = http.StatusCode resp
        /\ times ReadAll ops = 1%nat)
  /\ (user_shape -> classify body = UserError (service.Messages u))
  /\ (~ user_shape -> generic_shape ->
        classify body = APIError (service.Msg g) (service.Reasons g))
  /\ (~ user_shape -> ~ generic_shape -> classify body = UnhandledError body).
Proof.
  intros Hstatus Hbody u eu g eg user_shape generic_shape.
  assert (Hnot : ~ (200 <= http.StatusCode resp < 300)) by lia.
  pose proof (classify_order body) as (Hu & Hg & Hraw). fold u eu g eg in Hu, Hg, Hraw.
  split; [|split; [|repeat split; assumption]].
  - destruct (Service_HandleAPIResponse_error resp body successResponse Hnot Hbody)
      as (e & ops & Hrun & Hkind & Hcode & _ & _ & _ & Hmsg & _ & Honce).
    exists e, ops. repeat split; try assumption.
    intros Hgs Hnu. rewrite Hmsg, (Hg Hnu Hgs). reflexivity.
  - destruct (Examples_HandleAPIResponse_error resp body successResponse Hnot Hbody)
      as (e & ops & Hrun & Hkind & Hcode & _ & _ & Honce).
    exists e, ops. repeat split; assumption.
Qed.

Section ClassifierWitness.
Import SimJSON.

Lemma HandleAPIResponse_classifies_errors_witness :
  classify "user:wrong password"
  = UserError {[ "en-US" := {| service.UserMessage := "wrong password";
                               service.Solutions := [] |} ]}
  /\ (exists e ops,
        Service.HandleAPIResponse (Some (response 401 "user:wrong password")) ""
        = ("", Some e, ops)
        /\ kind_of_details (Service.Details e) = Some (classify "user:wrong password")).
Proof.
  destruct (HandleAPIResponse_classifies_errors (T := string)
              (response 401 "user:wrong password") "user:wrong password" "")
    as ((e & ops & Hrun & Hkind & _) & _ & Huser & _).
  - simpl. lia.
  - reflexivity.
  - split.
    + rewrite Huser; [reflexivity|]. split; [reflexivity|]. vm_compute. lia.
    + exists e, ops. split; assumption.
Defined.

End ClassifierWitness.

(** C6: for a status in [200,300) and a body that was read, both
    classifiers decode the body into the caller's success value once; when
    that succeeds they return the decoded value and no error, and when it
    fails they return the error "failed to parse success response" with
    the decoder's message, having tried once. *)
Theorem HandleAPIResponse_success
    {T : Type} `{JT : JSON T} `{JU : JSON service.UserError} `{JE : JSON service.Error}
    (resp : http.Response) (body : string) (successResponse : T) :
  200 <= http.StatusCode resp < 300 ->
  http.Body resp = Ok body ->
  let ops := [ReadAll; UnmarshalSuccess; Close] in
  (forall v, json_Unmarshal body successResponse = (v, None) ->
     Service.HandleAPIResponse (Some resp) successResponse = (v, None, ops)
     /\ Examples.HandleAPIResponse (Some resp) successResponse = Ok (v, None, ops))
  /\ (forall v err, json_Unmarshal body successResponse = (v, Some err) ->
        (exists e,
           Service.HandleAPIResponse (Some resp) successResponse = (v, Some e, ops)
           /\ Service.Message e = "failed to parse success response"
           /\ Service.Details e = DetailsText err
           /\ Service.StatusCode e = http.StatusCode resp)
        /\ Examples.HandleAPIResponse (Some resp) successResponse
           = Ok (v, Some (Examples.Errorf ("failed to parse success response: " +:+ err)),
                 ops))
  /\ times UnmarshalSuccess ops = 1%nat.
Proof.
  intros [Hlo Hhi] Hbody ops.
  unfold Service.HandleAPIResponse, Examples.HandleAPIResponse. rewrite Hbody.
  destruct (Z.leb_spec 200 (http.StatusCode resp)); [|lia].
  destruct (Z.ltb_spec (http.StatusCode resp) 300); [|lia]. simpl.
  split; [|split; [|reflexivity]].
  - intros v ->. split; reflexivity.
  - intros v err ->. split; [|reflexivity].
    eexists. repeat split.
Qed.

Section SuccessWitness.
Import SimJSON.

Lemma HandleAPIResponse_success_witness :
  Service.HandleAPIResponse (Some (response 200 "ok:token")) ""
  = ("token", None, [ReadAll; UnmarshalSuccess; Close])
  /\ Examples.HandleAPIResponse (Some (response 200 "ok:token")) ""
     = Ok ("token", None, [ReadAll; UnmarshalSuccess; Close]).
Proof.
  destruct (HandleAPIResponse_success (T := string)
              (response 200 "ok:token") "ok:token" "") as (Hok & _ & _).
  - simpl. lia.
  - reflexivity.
  - apply (Hok "token"). reflexivity.
Defined.

End SuccessWitness.

(** ** Waiting for a receipt *)

Section Wait.
Context `{Env}.
Variables (txHash : string) (maxWaitTime checkInterval : Z).

Lemma Since_lt (w : W) (start : Z) :
  0 <= now w - start -> maxWaitTime < 2 ^ 63 ->
  (Since w start <? maxWaitTime) = (now w - start <? maxWaitTime).
Proof.
  intros Ht Hmax. unfold Since.
  destruct (Z.ltb_spec (now w - start) maxWaitTime),
           (Z.ltb_spec (Z.min (2 ^ 63 - 1) (Z.max (- 2 ^ 63) (now w - start))) maxWaitTime);
    try reflexivity; lia.
Qed.

(** A round of the loop that finds no receipt. *)
Lemma waitLoop_round (fuel : nat) (start : Z) (st : State) (e : string) :
  (Since (world st) start <? maxWaitTime) = true ->
  fst (TransactionReceipt txHash (world st)) = Err e ->
  let st' := {| world := Sleep checkInterval (snd (TransactionReceipt txHash (world st)));
                fs := fs st |} in
  outcome (waitLoop (S fuel) start txHash maxWaitTime checkInterval st)
  = outcome (waitLoop fuel start txHash maxWaitTime checkInterval st')
  /\ final (waitLoop (S fuel) start txHash maxWaitTime checkInterval st)
     = final (waitLoop fuel start txHash maxWaitTime checkInterval st').
Proof.
  intros Hcheck Hq st'. cbn [waitLoop].
  unfold bind, get_world, call, emit, ret. rewrite Hcheck.
  destruct (TransactionReceipt txHash (world st)) as [r w1] eqn:Eq.
  simpl in Hq. subst r. cbn [world fs snd] in *. subst st'.
  destruct (String.eqb e "not found"); cbn [world fs];
    destruct (waitLoop fuel start txHash maxWaitTime checkInterval _) as [[r2 st2] evs2];
    destruct r2; split; reflexivity.
Qed.

(** The loop is over once the budget is used up. *)
Lemma waitLoop_done (fuel : nat) (start : Z) (st : State) :
  (Since (world st) start <? maxWaitTime) = false ->
  waitLoop fuel start txHash maxWaitTime checkInterval st
  = (Return (Err "transaction not mined"), st, [Printed "Transaction not mined"]).
Proof.
  intros Hcheck. destruct fuel; cbn [waitLoop];
    unfold bind, get_world, emit, ret; rewrite Hcheck; reflexivity.
Qed.

Variable Inv : W -> Prop.
Variables (delta epsilon : Z).
Hypothesis Inv_query : forall w, Inv w -> Inv (snd (TransactionReceipt txHash w)).
Hypothesis Inv_sleep : forall w, Inv w -> Inv (Sleep checkInterval w).
Hypothesis query_time :
  forall w, Inv w -> now w <= now (snd (TransactionReceipt txHash w)) <= now w + delta.
Hypothesis sleep_time :
  forall w, Inv w ->
    now w + Z.max 0 checkInterval <= now (Sleep checkInterval w)
    <= now w + Z.max 0 checkInterval + epsilon.
Hypothesis no_receipt :
  forall w, Inv w -> exists e, fst (TransactionReceipt txHash w) = Err e.
Hypothesis interval_pos : 0 < checkInterval.
Hypothesis maxWait_range : 0 <= maxWaitTime < 2 ^ 63.

(** Without a receipt the loop ends in the timeout error, once the
    budget is used up and before another round's worth of time has
    passed on top of it. *)
Lemma waitLoop_times_out (fuel : nat) (start : Z) (st : State) :
  Inv (world st) ->
  0 <= now (world st) - start < maxWaitTime + checkInterval + delta + epsilon ->
  maxWaitTime - (now (world st) - start) <= Z.of_nat fuel * checkInterval ->
  let r := waitLoop fuel start txHash maxWaitTime checkInterval st in
  outcome r = Return (Err "transaction not mined")
  /\ maxWaitTime <= now (world (final r)) - start
     < maxWaitTime + checkInterval + delta + epsilon.
Proof.
  revert st. induction fuel as [|fuel IH]; intros st HI Ht Hfuel r.
  - subst r. rewrite waitLoop_done.
    + unfold outcome, final. simpl. split; [reflexivity|lia].
    + rewrite Since_lt by lia. apply Z.ltb_ge. lia.
  - destruct (Z.ltb_spec (now (world st) - start) maxWaitTime) as [Hlt|Hge].
    + destruct (no_receipt (world st) HI) as [e He].
      assert (Hcheck : (Since (world st) start <? maxWaitTime) = true).
      { rewrite Since_lt by lia. apply Z.ltb_lt. exact Hlt. }
      destruct (waitLoop_round fuel start st e Hcheck He) as [Hout Hfin].
      subst r. rewrite Hout, Hfin.
      pose proof (query_time (world st) HI) as Hq.
      pose proof (sleep_time _ (Inv_query _ HI)) as Hs.
      apply IH; cbn [world fs].
      * apply Inv_sleep, Inv_query, HI.
      * lia.
      * nia.
    + subst r. rewrite waitLoop_done.
      * unfold outcome, final. simpl. split; [reflexivity|lia].
      * rewrite Since_lt by lia. apply Z.ltb_ge. lia.
Qed.

End Wait.

Section WaitReceipt.
Context `{Env}.
Variables (txHash : string) (maxWaitTime checkInterval : Z).

(** The first query that finds a receipt, made within the budget, ends
    the wait with that receipt. *)
Lemma waitLoop_returns_receipt (k : nat) :
  forall (fuel : nat) (start : Z) (st : State) (receipt : Receipt),
    (k < fuel)%nat ->
    (forall j, (j < k)%nat ->
       exists e, fst (TransactionReceipt txHash
                        (world_at_poll txHash checkInterval j (world st))) = Err e) ->
    (forall j, (j <= k)%nat ->
       Since (world_at_poll txHash checkInterval j (world st)) start < maxWaitTime) ->
    fst (TransactionReceipt txHash (world_at_poll txHash checkInterval k (world st)))
    = Ok receipt ->
    outcome (waitLoop fuel start txHash maxWaitTime checkInterval st)
    = Return (Ok receipt).
Proof.
  induction k as [|k IH]; intros fuel start st receipt Hfuel Hbefore Hbudget Hk;
    destruct fuel as [|fuel]; try lia.
  - cbn [waitLoop world_at_poll] in *.
    unfold bind at 1, get_world at 1.
    pose proof (Hbudget 0%nat ltac:(lia)) as H0. cbn [world_at_poll] in H0.
    apply Z.ltb_lt in H0. rewrite H0.
    unfold bind, call, outcome.
    destruct (TransactionReceipt txHash (world st)) as [r w1]. simpl in Hk. subst r.
    reflexivity.
  - pose proof (Hbudget 0%nat ltac:(lia)) as H0. cbn [world_at_poll] in H0.
    apply Z.ltb_lt in H0.
    destruct (Hbefore 0%nat ltac:(lia)) as [e He]. cbn [world_at_poll] in He.
    destruct (waitLoop_round txHash maxWaitTime checkInterval fuel start st e H0 He)
      as [-> _].
    apply IH; cbn [world].
    + lia.
    + intros j Hj. apply (Hbefore (S j)). lia.
    + intros j Hj. apply (Hbudget (S j)). lia.
    + exact Hk.
Qed.

End WaitReceipt.

Section WaitWhole.
Context `{Env}.

Lemma waitForTransactionReceipt_loop fuel txHash maxWaitTime checkInterval st :
  waitForTransactionReceipt fuel txHash maxWaitTime checkInterval st
  = waitLoop fuel (now (world st)) txHash maxWaitTime checkInterval st.
Proof.
  unfold waitForTransactionReceipt, bind, get_world.
  destruct (waitLoop fuel (now (world st)) txHash maxWaitTime checkInterval st)
    as [[r st'] evs].
  destruct r; reflexivity.
Qed.

End WaitWhole.

Section WaitCounterexample.
#[local] Existing Instance Sim.env.

(** C9, as stated, fails: with receipt queries that take 14 seconds each
    and never find a receipt, the wait with a budget of 120 seconds and an
    interval of 15 seconds returns its timeout error after 145 seconds,
    more than the 135 seconds the claim allows. *)
Lemma wait_exceeds_budget_plus_interval :
  let r := waitForTransactionReceipt 100 "0x0" (120 * Second) (15 * Second)
             (Sim.never_mined (14 * Second)) in
  outcome r = Return (Err "transaction not mined")
  /\ now (world (final r)) - now (world (Sim.never_mined (14 * Second))) = 145 * Second
  /\ 145 * Second > 120 * Second + 15 * Second.
Proof. vm_compute. repeat split; reflexivity. Qed.

End WaitCounterexample.

(** C9, amended: in a world where a receipt query takes at most [delta]
    and a sleep oversleeps by at most [epsilon], a wait with a positive
    interval and enough fuel for [maxWaitTime / checkInterval] rounds
    always ends.  If no query finds a receipt it returns the timeout error
    after no less than [maxWaitTime] and less than
    [maxWaitTime + checkInterval + delta + epsilon]; with instant queries
    and exact sleeps that is less than [maxWaitTime + checkInterval].  If
    a query made within the budget is the first to find a receipt, the wait
    returns that receipt and no error. *)
Theorem waitForTransactionReceipt_bounds `{Env}
    (txHash : string) (maxWaitTime checkInterval : Z)
    (Inv : W -> Prop) (delta epsilon : Z) (fuel : nat) (st : State) :
  (forall w, Inv w -> Inv (snd (TransactionReceipt txHash w))) ->
  (forall w, Inv w -> Inv (Sleep checkInterval w)) ->
  (forall w, Inv w -> now w <= now (snd (TransactionReceipt txHash w)) <= now w + delta) ->
  (forall w, Inv w ->
     now w + Z.max 0 checkInterval <= now (Sleep checkInterval w)
     <= now w + Z.max 0 checkInterval + epsilon) ->
  0 < checkInterval ->
  0 <= maxWaitTime < 2 ^ 63 ->
  maxWaitTime <= Z.of_nat fuel * checkInterval ->
  Inv (world st) ->
  let r := waitForTransactionReceipt fuel txHash maxWaitTime checkInterval st in
  let elapsed := now (world (final r)) - now (world st) in
  ((forall w, Inv w -> exists e, fst (TransactionReceipt txHash w) = Err e) ->
     outcome r = Return (Err "transaction not mined")
     /\ maxWaitTime <= elapsed < maxWaitTime + checkInterval + delta + epsilon)
  /\ (forall (k : nat) (receipt : Receipt),
        (k < fuel)%nat ->
        (forall j, (j < k)%nat ->
           exists e, fst (TransactionReceipt txHash
                            (world_at_poll txHash checkInterval j (world st))) = Err e) ->
        (forall j, (j <= k)%nat ->
           Since (world_at_poll txHash checkInterval j (world st)) (now (world st))
           < maxWaitTime) ->
        fst (TransactionReceipt txHash (world_at_poll txHash checkInterval k (world st)))
        = Ok receipt ->
        outcome r = Return (Ok receipt)).
Proof.
  intros HIq HIs Hq Hs Hpos Hmax Hfuel HI r elapsed.
  subst elapsed r. rewrite waitForTransactionReceipt_loop. split.
  - intros Hnone.
    pose proof (Hq _ HI) as Hd. pose proof (Hs _ HI) as He.
    apply (waitLoop_times_out txHash maxWaitTime checkInterval Inv delta epsilon
             HIq HIs Hq Hs Hnone Hpos Hmax fuel (now (world st)) st HI); lia.
  - intros k receipt Hk Hbefore Hbudget Hfound.
    apply (waitLoop_returns_receipt txHash maxWaitTime checkInterval k fuel
             (now (world st)) st receipt Hk Hbefore Hbudget Hfound).
Qed.

Section WaitWitness.
#[local] Existing Instance Sim.env.

Lemma waitForTransactionReceipt_bounds_witness :
  let st := Sim.never_mined (14 * Second) in
  let r := waitForTransactionReceipt 100 "0x0" (120 * Second) (15 * Second) st in
  outcome r = Return (Err "transaction not mined")
  /\ 120 * Second <= now (world (final r)) - now (world st)
     < 120 * Second + 15 * Second + 14 * Second + 0.
Proof.
  intros st r.
  destruct (waitForTransactionReceipt_bounds (H := Sim.env) "0x0" (120 * Second) (15 * Second)
              (fun w : Sim.World => Sim.latency w = 14 * Second /\ Sim.mined w = false)
              (14 * Second) 0 100 st) as [Htimeout _].
  - intros w Hw. exact Hw.
  - intros w Hw. exact Hw.
  - intros w [Hl _]. simpl. rewrite Hl. unfold Second. lia.
  - intros w _. simpl. unfold Second. lia.
  - reflexivity.
  - vm_compute. split; [discriminate|reflexivity].
  - vm_compute. discriminate.
  - split; reflexivity.
  - apply Htimeout. intros w [_ Hm]. simpl. rewrite Hm. eexists. reflexivity.
Defined.

End WaitWitness.

(** ** The outer loops *)

Section CreateLoop.
Context `{Env}.
Variable cfg : Config.
Variable fuel : nat.

(** The loop of the vault creation runs its body once for every [s]
    from the current one up to the bound of the first poll. *)
Lemma create_loop_count (numOfSteps stepNumber : Z) :
  - 2 ^ 63 <= numOfSteps - stepNumber < 2 ^ 63 - 1 ->
  forall (fuel' : nat) (s : Z) (ran : nat) (st : State) (k : nat),
    0 <= s ->
    outcome (CreateVault.loop cfg fuel fuel' numOfSteps stepNumber s ran st) = Return k ->
    k = (ran + Z.to_nat (numOfSteps - stepNumber - s + 1))%nat.
Proof.
  intros Hbound fuel'.
  assert (Hb64 : int64 (numOfSteps - stepNumber) = numOfSteps - stepNumber)
    by (apply int64_small; lia).
  induction fuel' as [|fuel' IH]; intros s ran st k Hs; simpl; rewrite Hb64.
  - destruct (Z.leb_spec s (numOfSteps - stepNumber)) as [Hle|Hgt]; [discriminate|].
    intros [= <-]. lia.
  - destruct (Z.leb_spec s (numOfSteps - stepNumber)) as [Hle|Hgt].
    + unfold bind, outcome.
      destruct (CreateVault.iteration cfg fuel st) as [[r st'] evs].
      destruct r as [[]| | |]; try discriminate.
      destruct (CreateVault.loop cfg fuel fuel' numOfSteps stepNumber
                  (int64 (s + 1)) (S ran) st') as [[r' st''] evs'] eqn:Eloop.
      simpl. intros ->.
      rewrite int64_small in Eloop by lia.
      assert (Hk : outcome (CreateVault.loop cfg fuel fuel' numOfSteps stepNumber
                              (s + 1) (S ran) st') = Return k)
        by (rewrite Eloop; reflexivity).
      apply IH in Hk; [|lia]. lia.
    + intros [= <-]. lia.
Qed.

(** The loop itself does not starve: with more fuel than remaining
    steps, running out of fuel is the doing of an iteration's wait. *)
Lemma create_loop_fuel (numOfSteps stepNumber : Z) :
  - 2 ^ 63 <= numOfSteps - stepNumber < 2 ^ 63 - 1 ->
  forall (fuel' : nat) (s : Z) (ran : nat) (st : State),
    0 <= s ->
    numOfSteps - stepNumber - s + 1 <= Z.of_nat fuel' ->
    outcome (CreateVault.loop cfg fuel fuel' numOfSteps stepNumber s ran st) = OutOfFuel ->
    exists st', outcome (CreateVault.iteration cfg fuel st') = OutOfFuel.
Proof.
  intros Hbound fuel'.
  assert (Hb64 : int64 (numOfSteps - stepNumber) = numOfSteps - stepNumber)
    by (apply int64_small; lia).
  induction fuel' as [|fuel' IH]; intros s ran st Hs Hfuel; simpl; rewrite Hb64.
  - destruct (Z.leb_spec s (numOfSteps - stepNumber)); [lia|discriminate].
  - destruct (Z.leb_spec s (numOfSteps - stepNumber)) as [Hle|Hgt]; [|discriminate].
    unfold bind, outcome.
    destruct (CreateVault.iteration cfg fuel st) as [[r st'] evs] eqn:Eit.
    destruct r as [[]| | |]; try discriminate.
    + destruct (CreateVault.loop cfg fuel fuel' numOfSteps stepNumber
                  (int64 (s + 1)) (S ran) st') as [[r' st''] evs'] eqn:Eloop.
      simpl. intros ->.
      rewrite int64_small in Eloop by lia.
      apply (IH (s + 1) (S ran) st'); [lia|lia|].
      rewrite Eloop. reflexivity.
    + intros _. exists st. rewrite Eit. reflexivity.
Qed.

End CreateLoop.

(** X1: the vault creation runs its loop once per remaining step of the
    first poll: a run that returns has made [NumberOfSteps - StepNumber + 1]
    iterations, whatever the later polls say; and with that much fuel the
    loop itself does not run out of it (only a wait inside an iteration
    can). *)
Theorem create_runs_once_per_remaining_step `{Env}
    (cfg : Config) (fuel : nat) (st st1 : State) (evs : list Event)
    (plan : service.ChainActivity) :
  CreateVault.getVaultTxSteps cfg st = (Return (Ok plan), st1, evs) ->
  service.Steps plan <> [] ->
  1 <= service.StepNumber plan <= service.NumberOfSteps plan ->
  service.NumberOfSteps plan < 2 ^ 63 ->
  let r := CreateVault.CreateVaultExample cfg fuel st in
  let remaining := service.NumberOfSteps plan - service.StepNumber plan + 1 in
  (forall k, outcome r = Return k -> Z.of_nat k = remaining)
  /\ (remaining <= Z.of_nat fuel -> outcome r = OutOfFuel ->
        exists st', outcome (CreateVault.iteration cfg fuel st') = OutOfFuel).
Proof.
  intros Hpoll Hsteps Hrange Hint r remaining. subst r remaining.
  assert (Hrun : outcome (CreateVault.CreateVaultExample cfg fuel st)
                 = outcome (CreateVault.loop cfg fuel fuel (service.NumberOfSteps plan)
                              (service.StepNumber plan) 0 0 st1)).
  { unfold CreateVault.CreateVaultExample, bind at 1. rewrite Hpoll.
    cbn [orFatal]. unfold bind at 1, ret at 1.
    destruct (service.Steps plan) as [|step rest]; [contradiction|].
    change (0 <? length (step :: rest))%nat with true. cbv iota.
    destruct (CreateVault.loop cfg fuel fuel (service.NumberOfSteps plan)
                (service.StepNumber plan) 0 0 st1) as [[r st2] evs2].
    reflexivity. }
  rewrite Hrun. split.
  - intros k Hk. apply create_loop_count in Hk; lia.
  - intros Hfuel Hout.
    apply (create_loop_fuel cfg fuel (service.NumberOfSteps plan)
             (service.StepNumber plan) ltac:(lia) fuel 0 0%nat st1); [lia|lia|exact Hout].
Qed.

Section LoopWitness.
#[local] Existing Instance Sim.env.

Lemma create_runs_once_per_remaining_step_witness :
  outcome (CreateVault.CreateVaultExample Sim.config 100 (Sim.start 3)) = Return 3%nat
  /\ Z.of_nat 3 = 3 - 1 + 1.
Proof.
  assert (Hret : outcome (CreateVault.CreateVaultExample Sim.config 100 (Sim.start 3))
                 = Return 3%nat) by (vm_compute; reflexivity).
  split; [exact Hret|].
  destruct (create_runs_once_per_remaining_step Sim.config 100 (Sim.start 3) (Sim.start 3)
              [] (Sim.plan (world (Sim.start 3)))) as [Hcount _].
  - vm_compute; reflexivity.
  - discriminate.
  - vm_compute. split; discriminate.
  - reflexivity.
  - exact (Hcount 3%nat Hret).
Defined.

(** C4 fails for the repayment: its loop body assigns to the variables of
    the loop condition, so with a plan of three steps whose step number
    moves on after each transaction the loop ends after two iterations
    (steps one and two), where the first poll left three steps to do; the
    vault creation, run in the same world, makes the three. *)
Theorem repay_loop_stops_early :
  let plan := Sim.plan (world (Sim.start 3)) in
  let repay := RepayVault.VaultDebtRepayExample Sim.config 100 (Sim.start 3) in
  let create := CreateVault.CreateVaultExample Sim.config 100 (Sim.start 3) in
  service.NumberOfSteps plan - service.StepNumber plan + 1 = 3
  /\ outcome repay = Return 2%nat
  /\ map fst (broadcasts (events repay)) = [0; 1]
  /\ outcome create = Return 3%nat
  /\ map fst (broadcasts (events create)) = [0; 1; 2].
Proof. vm_compute. repeat split; reflexivity. Qed.

End LoopWitness.

(** ** More on the response classifier and on [APIError] *)

Lemma append_assoc (a b c : string) : (a +:+ b) +:+ c = a +:+ (b +:+ c).
Proof.
  induction a as [|x a IH]; [reflexivity|].
  change (String x ((a +:+ b) +:+ c) = String x (a +:+ (b +:+ c))). rewrite IH. reflexivity.
Qed.

Lemma append_nil_r (a : string) : a +:+ "" = a.
Proof.
  induction a as [|x a IH]; [reflexivity|].
  change (String x (a +:+ "") = String x a). rewrite IH. reflexivity.
Qed.

Lemma concat_cons (a : string) (l : list string) :
  String.concat "" (a :: l) = a +:+ String.concat "" l.
Proof. destruct l; [symmetry; apply append_nil_r|reflexivity]. Qed.

Lemma occurs_in_refl (s : string) : occurs_in s s.
Proof. exists "", "". symmetry. apply append_nil_r. Qed.

Lemma occurs_in_append_l (s a b : string) : occurs_in s a -> occurs_in s (a +:+ b).
Proof.
  intros (p & q & ->). exists p, (q +:+ b). rewrite !append_assoc. reflexivity.
Qed.

Lemma occurs_in_append_r (s a b : string) : occurs_in s b -> occurs_in s (a +:+ b).
Proof.
  intros (p & q & ->). exists (a +:+ p), q. rewrite !append_assoc. reflexivity.
Qed.

Lemma occurs_in_concat {A : Type} (f : A -> string) (x : A) (l : list A) :
  x ∈ l -> occurs_in (f x) (String.concat "" (map f l)).
Proof.
  induction 1 as [x l|x y l _ IH]; rewrite map_cons, concat_cons.
  - apply occurs_in_append_l, occurs_in_refl.
  - apply occurs_in_append_r, IH.
Qed.

Section ClassifierMore.
Context {T : Type} `{JT : JSON T} `{JU : JSON service.UserError} `{JE : JSON service.Error}.

Lemma Service_HandleAPIResponse_cases (resp : option http.Response) (s : T) :
  (exists r body v,
     resp = Some r /\ http.Body r = Ok body /\ 200 <= http.StatusCode r < 300
     /\ json_Unmarshal body s = (v, None)
     /\ Service.HandleAPIResponse resp s = (v, None, [ReadAll; UnmarshalSuccess; Close]))
  \/ (exists r body v err e,
        resp = Some r /\ http.Body r = Ok body /\ 200 <= http.StatusCode r < 300
        /\ json_Unmarshal body s = (v, Some err)
        /\ Service.HandleAPIResponse resp s = (v, Some e, [ReadAll; UnmarshalSuccess; Close])
        /\ Service.StatusCode e = http.StatusCode r)
  \/ (exists r body e ops,
        resp = Some r /\ http.Body r = Ok body /\ ~ (200 <= http.StatusCode r < 300)
        /\ Service.HandleAPIResponse resp s = (s, Some e, ops)
        /\ Service.StatusCode e = http.StatusCode r)
  \/ (exists e ops,
        (resp = None \/ exists r, resp = Some r /\ ~ is_ok (http.Body r))
        /\ Service.HandleAPIResponse resp s = (s, Some e, ops)
        /\ Service.StatusCode e = 500
        /\ times UnmarshalSuccess ops = 0%nat
        /\ times UnmarshalUserError ops = 0%nat
        /\ times UnmarshalError ops = 0%nat).
Proof.
  destruct resp as [r|].
  2:{ right. right. right. eexists _, _. split; [left; reflexivity|]. repeat split. }
  destruct (http.Body r) as [body|err|err] eqn:Hbody.
  2,3: right; right; right; unfold Service.HandleAPIResponse; rewrite Hbody;
       eexists _, _; (split; [right; exists r; split; [reflexivity|]; rewrite Hbody; simpl; tauto|]);
       repeat split.
  destruct (decide (200 <= http.StatusCode r < 300)) as [Hs|Hs].
  - unfold Service.HandleAPIResponse. rewrite Hbody.
    destruct (Z.leb_spec 200 (http.StatusCode r)); [|lia].
    destruct (Z.ltb_spec (http.StatusCode r) 300); [|lia]. simpl.
    destruct (json_Unmarshal body s) as [v [err|]] eqn:Hd.
    + right. left. eexists r, body, v, err, _. repeat split; try assumption; lia.
    + left. exists r, body, v. repeat split; try assumption; lia.
  - right. right. left.
    destruct (Service_HandleAPIResponse_error r body s Hs Hbody)
      as (e & ops & Hrun & _ & Hcode & _).
    exists r, body, e, ops. repeat split; assumption.
Qed.

End ClassifierMore.

(** X2: the service classifier returns no error exactly when there is a
    response whose body was read, whose status is in [200,300) and whose
    body decodes into the caller's value; and the caller's value is only
    ever changed by that decoding of a body with a status in [200,300)
    (also a failed one, which may have filled it in part): a nil response,
    an unreadable body and every other status leave it as it was. *)
Theorem Service_HandleAPIResponse_no_error_iff
    {T : Type} `{JT : JSON T} `{JU : JSON service.UserError} `{JE : JSON service.Error}
    (resp : option http.Response) (successResponse v : T)
    (e : option Service.APIError) (ops : list Op) :
  Service.HandleAPIResponse resp successResponse = (v, e, ops) ->
  (e = None <->
   exists r body,
     resp = Some r /\ http.Body r = Ok body /\ 200 <= http.StatusCode r < 300
     /\ json_Unmarshal body successResponse = (v, None))
  /\ (v <> successResponse ->
      exists r body,
        resp = Some r /\ http.Body r = Ok body /\ 200 <= http.StatusCode r < 300
        /\ fst (json_Unmarshal body successResponse) = v).
Proof.
  intros Hrun.
  destruct (Service_HandleAPIResponse_cases resp successResponse)
    as [(r & body & v' & -> & Hb & Hs & Hd & Hr)
       |[(r & body & v' & err & e' & -> & Hb & Hs & Hd & Hr & _)
        |[(r & body & e' & ops' & -> & Hb & Hs & Hr & _)
         |(e' & ops' & Hwhy & Hr & _)]]];
    rewrite Hr in Hrun; inversion Hrun; subst; clear Hrun.
  - split.
    + split; [|reflexivity]. intros _. exists r, body. repeat split; try assumption; lia.
    + intros _. exists r, body. rewrite Hd. repeat split; try assumption; lia.
  - split.
    + split; [discriminate|].
      intros (r' & body' & Hr' & Hb' & _ & Hd'). inversion Hr'; subst r'.
      rewrite Hb in Hb'. inversion Hb'; subst body'. rewrite Hd in Hd'. discriminate.
    + intros _. exists r, body. rewrite Hd. repeat split; try assumption; lia.
  - split.
    + split; [discriminate|].
      intros (r' & body' & Hr' & _ & Hs' & _). inversion Hr'; subst r'. contradiction.
    + intros Hne. contradiction Hne. reflexivity.
  - split.
    + split; [discriminate|].
      intros (r' & body' & -> & Hb' & _).
      destruct Hwhy as [Hnil|(r & Hr' & Hbad)]; [discriminate|].
      inversion Hr'; subst r'. rewrite Hb' in Hbad. exfalso. apply Hbad. exact I.
    + intros Hne. contradiction Hne. reflexivity.
Qed.

Section NoErrorWitness.
Import SimJSON.

Lemma Service_HandleAPIResponse_no_error_iff_witness :
  exists r body,
    Some (response 204 "ok:done") = Some r /\ http.Body r = Ok body
    /\ 200 <= http.StatusCode r < 300
    /\ json_Unmarshal body "" = ("done", None).
Proof.
  apply (Service_HandleAPIResponse_no_error_iff (T := string)
           (Some (response 204 "ok:done")) "" "done" None
           [ReadAll; UnmarshalSuccess; Close]); reflexivity.
Defined.

End NoErrorWitness.

(** X3: the classifier of the examples and the one of the service package
    agree on every response that is there: the same value for the caller,
    the same operations on the response, an error from one exactly when
    from the other, the same status and details in a classified error, and
    for a body that could not be read or decoded the text of the examples
    is the message and the detail of the service error joined by a colon.
    On a nil response they differ: the service returns a 500 error and the
    examples' one panics. *)
Theorem classifiers_agree
    {T : Type} `{JT : JSON T} `{JU : JSON service.UserError} `{JE : JSON service.Error}
    (successResponse : T) :
  (forall r : http.Response,
     exists v es ee ops,
       Service.HandleAPIResponse (Some r) successResponse = (v, es, ops)
       /\ Examples.HandleAPIResponse (Some r) successResponse = Ok (v, ee, ops)
       /\ (es = None <-> ee = None)
       /\ (forall e', ee = Some (Examples.API e') ->
             exists e, es = Some e
                       /\ Service.StatusCode e = Examples.StatusCode e'
                       /\ Service.Details e = Examples.Details e')
       /\ (forall text, ee = Some (Examples.Errorf text) ->
             exists e err, es = Some e
                           /\ Service.Details e = DetailsText err
                           /\ text = Service.Message e +:+ ": " +:+ err))
  /\ (exists e,
        Service.HandleAPIResponse None successResponse = (successResponse, Some e, [])
        /\ Service.StatusCode e = 500)
  /\ ~ is_ok (Examples.HandleAPIResponse None successResponse).
Proof.
  split; [|split; [eexists; split; reflexivity|simpl; tauto]].
  intros r. unfold Service.HandleAPIResponse, Examples.HandleAPIResponse.
  destruct (http.Body r) as [body|err|err].
  2,3: eexists _, _, _, _; (split; [reflexivity|]); (split; [reflexivity|]);
       (split; [split; discriminate|]); split;
       [intros e' He'; discriminate
       |intros text Ht; inversion Ht; eexists _, err; repeat split].
  destruct ((200 <=? http.StatusCode r) && (http.StatusCode r <? 300)).
  - destruct (json_Unmarshal body successResponse) as [v [err|]].
    + eexists _, _, _, _. split; [reflexivity|]. split; [reflexivity|].
      split; [split; discriminate|]. split.
      * intros e' He'. discriminate.
      * intros text Ht. inversion Ht. eexists _, err. repeat split.
    + eexists _, _, _, _. split; [reflexivity|]. split; [reflexivity|].
      split; [tauto|]. split; intros ? Hx; discriminate.
  - destruct (json_Unmarshal body (zero (T := service.UserError))) as [u eu].
    destruct (json_Unmarshal body (zero (T := service.Error))) as [g eg].
    destruct (bool_decide (eu = None) && (0 <? size (service.Messages u))%nat);
      [|destruct (bool_decide (eg = None) && negb (String.eqb (service.Msg g) ""))];
      (eexists _, _, _, _; split; [reflexivity|]; split; [reflexivity|];
       split; [split; discriminate|]; split;
       [intros e' He'; inversion He'; eexists; repeat split
       |intros text Ht; discriminate]).
Qed.

(** X4: the status tests of an error the service classifier returns.  Not
    found, unauthorized and forbidden are client errors, and no error is
    both a client and a server error.  For a response whose body was read
    the tests read the status of the response, also when the status is in
    [200,300) and the body did not decode (then neither test holds); the
    error for a nil response or an unreadable body is a server error. *)
Theorem APIError_status_tests
    {T : Type} `{JT : JSON T} `{JU : JSON service.UserError} `{JE : JSON service.Error}
    (resp : option http.Response) (successResponse v : T)
    (e : Service.APIError) (ops : list Op) :
  Service.HandleAPIResponse resp successResponse = (v, Some e, ops) ->
  (ServiceError.IsNotFound e || ServiceError.IsUnauthorized e || ServiceError.IsForbidden e
   = true -> ServiceError.IsClientError e = true)
  /\ (ServiceError.IsClientError e = true -> ServiceError.IsServerError e = false)
  /\ (forall r body, resp = Some r -> http.Body r = Ok body ->
        ServiceError.IsNotFound e = (http.StatusCode r =? 404)
        /\ ServiceError.IsUnauthorized e = (http.StatusCode r =? 401)
        /\ ServiceError.IsForbidden e = (http.StatusCode r =? 403)
        /\ ServiceError.IsClientError e
           = (400 <=? http.StatusCode r) && (http.StatusCode r <? 500)
        /\ ServiceError.IsServerError e
           = (500 <=? http.StatusCode r) && (http.StatusCode r <? 600))
  /\ (resp = None \/ (exists r, resp = Some r /\ ~ is_ok (http.Body r)) ->
      ServiceError.IsServerError e = true /\ ServiceError.IsClientError e = false).
Proof.
  intros Hrun.
  unfold ServiceError.IsNotFound, ServiceError.IsUnauthorized, ServiceError.IsForbidden,
    ServiceError.IsClientError, ServiceError.IsServerError,
    ServiceError.StatusNotFound, ServiceError.StatusUnauthorized,
    ServiceError.StatusForbidden.
  split; [|split; [|split]].
  - intros H. apply orb_true_iff in H as [H|H]; [apply orb_true_iff in H as [H|H]|];
      apply Z.eqb_eq in H; rewrite H; reflexivity.
  - intros H. apply andb_true_iff in H as [_ H]. apply Z.ltb_lt in H.
    destruct (Z.leb_spec 500 (Service.StatusCode e)); [lia|reflexivity].
  - intros r body -> Hb.
    assert (Hcode : Service.StatusCode e = http.StatusCode r).
    { destruct (Service_HandleAPIResponse_cases (Some r) successResponse)
        as [(r' & body' & v' & Hr' & _ & _ & _ & Hr)
           |[(r' & body' & v' & err & e' & Hr' & _ & _ & _ & Hr & Hc)
            |[(r' & body' & e' & ops' & Hr' & _ & _ & Hr & Hc)
             |(e' & ops' & Hwhy & _)]]].
      - rewrite Hr in Hrun. discriminate.
      - rewrite Hr in Hrun. inversion Hrun; subst. inversion Hr'; subst. exact Hc.
      - rewrite Hr in Hrun. inversion Hrun; subst. inversion Hr'; subst. exact Hc.
      - destruct Hwhy as [Hnil|(r' & Hr' & Hbad)]; [discriminate|].
        inversion Hr'; subst r'. rewrite Hb in Hbad. contradiction Hbad. exact I. }
    rewrite Hcode. repeat split.
  - intros Hwhy.
    assert (Hcode : Service.StatusCode e = 500).
    { destruct Hwhy as [->|(r & -> & Hbad)].
      - inversion Hrun. reflexivity.
      - unfold Service.HandleAPIResponse in Hrun.
        destruct (http.Body r); [contradiction Hbad; exact I| |];
          inversion Hrun; reflexivity. }
    rewrite Hcode. split; reflexivity.
Qed.

Section StatusTestsWitness.
Import SimJSON.

Lemma APIError_status_tests_witness :
  exists e,
    Service.HandleAPIResponse (Some (response 404 "error:no such vault")) ""
    = ("", Some e, [ReadAll; UnmarshalUserError; UnmarshalError; Close])
    /\ ServiceError.IsNotFound e = true
    /\ ServiceError.IsClientError e = true.
Proof.
  eexists. split; [reflexivity|].
  pose proof (APIError_status_tests (T := string)
                (Some (response 404 "error:no such vault")) "" "" _ _ eq_refl)
    as (Hclient & _ & Hread & _).
  destruct (Hread _ "error:no such vault" eq_refl eq_refl) as (Hnf & _).
  split; [exact Hnf|]. apply Hclient. rewrite Hnf. reflexivity.
Defined.

End StatusTestsWitness.

(** X5: [WithContext] sets one entry of the context and nothing else: the
    key reads back as the value, every other key reads as before (as
    absent when there was no map), the six other fields are kept, setting
    a key twice keeps the last value, and the printed report then has a
    context section with the line of that entry. *)
Theorem WithContext_sets_one_entry (e : Service.APIError) (key value : string) :
  let e' := ServiceError.WithContext e key value in
  (exists ctx,
     Service.ErrorContext e' = Some ctx
     /\ ctx !! key = Some value
     /\ (forall k, k <> key -> ctx !! k = default ∅ (Service.ErrorContext e) !! k))
  /\ (Service.StatusCode e', Service.Message e', Service.Details e',
      Service.RequestID e', Service.Path e', Service.Method e')
     = (Service.StatusCode e, Service.Message e, Service.Details e,
        Service.RequestID e, Service.Path e, Service.Method e)
  /\ (forall old, ServiceError.WithContext (ServiceError.WithContext e key old) key value = e')
  /\ occurs_in ("- " +:+ key +:+ ": " +:+ value +:+ ServiceError.nl)
       (ServiceError.PrettyPrintError e').
Proof.
  intros e'. split; [|split; [|split]].
  - eexists. split; [reflexivity|]. split.
    + apply lookup_insert_eq.
    + intros k Hk. apply lookup_insert_ne. congruence.
  - reflexivity.
  - intros old. unfold e', ServiceError.WithContext. simpl. rewrite insert_insert_eq. reflexivity.
  - unfold ServiceError.PrettyPrintError. apply occurs_in_append_r, occurs_in_append_l.
    unfold ServiceError.context_block, e', ServiceError.WithContext.
    cbn [Service.ErrorContext].
    set (ctx := <[key:=value]> (default ∅ (Service.ErrorContext e))).
    assert (Hin : (key, value) ∈ map_to_list ctx).
    { apply elem_of_map_to_list. apply lookup_insert_eq. }
    assert (Hsz : (0 <? size ctx)%nat = true).
    { apply Nat.ltb_lt. rewrite <- length_map_to_list.
      destruct (map_to_list ctx); [inversion Hin|simpl; lia]. }
    rewrite Hsz. do 3 apply occurs_in_append_r.
    apply (occurs_in_concat
             (fun kv : string * string =>
                "- " +:+ fst kv +:+ ": " +:+ snd kv +:+ ServiceError.nl) (key, value)).
    exact Hin.
Qed.

Lemma occurs_in_trans (a b c : string) : occurs_in a b -> occurs_in b c -> occurs_in a c.
Proof.
  intros (p & q & ->) (p' & q' & ->). exists (p' +:+ p), (q +:+ q').
  rewrite !append_assoc. reflexivity.
Qed.

Lemma bullets_occurs (item : string) (items : list string) :
  item ∈ items -> occurs_in ("- " +:+ item +:+ ServiceError.nl) (ServiceError.bullets items).
Proof.
  intros Hin. unfold ServiceError.bullets.
  apply (occurs_in_concat (fun s => "- " +:+ s +:+ ServiceError.nl) item). exact Hin.
Qed.

Lemma nonempty_ltb {A : Type} (x : A) (l : list A) : x ∈ l -> (0 <? length l)%nat = true.
Proof. intros Hin. destruct l; [inversion Hin|reflexivity]. Qed.

Lemma locale_block_solution (lang : string) (d : service.UserMessage_) (sol : string) :
  sol ∈ service.Solutions d ->
  occurs_in ("- " +:+ sol +:+ ServiceError.nl) (ServiceError.locale_block lang d).
Proof.
  intros Hin. unfold ServiceError.locale_block. rewrite (nonempty_ltb _ _ Hin).
  do 9 apply occurs_in_append_r. apply bullets_occurs, Hin.
Qed.

(** X6: the printed report drops nothing of the error.  It starts with the
    six header lines; every entry of the context has its line; a user
    error has the block of every locale, and in it one line for each
    solution; a generic error has its message line and one line for each
    reason; any other detail is printed last, as it is, after the line
    "Raw Details:".  None of this depends on the order in which the maps
    are iterated. *)
Theorem PrettyPrintError_shows_everything (e : Service.APIError) :
  let report := ServiceError.PrettyPrintError e in
  let line item := "- " +:+ item +:+ ServiceError.nl in
  (exists rest, report = ServiceError.header e +:+ rest)
  /\ (forall ctx k v, Service.ErrorContext e = Some ctx -> ctx !! k = Some v ->
        occurs_in (line (k +:+ ": " +:+ v)) report)
  /\ match Service.Details e with
     | DetailsUserError userError =>
         forall lang detail, service.Messages userError !! lang = Some detail ->
           occurs_in (ServiceError.locale_block lang detail) report
           /\ (forall solution, solution ∈ service.Solutions detail ->
                 occurs_in (line solution) report)
     | DetailsError genericError =>
         occurs_in ("Message: " +:+ service.Msg genericError +:+ ServiceError.nl) report
         /\ (forall reason, reason ∈ service.Reasons genericError ->
               occurs_in (line reason) report)
     | DetailsText text =>
         exists before,
           report = before +:+ "Raw Details:" +:+ ServiceError.nl +:+ text +:+ ServiceError.nl
     | NoDetails =>
         exists before,
           report = before +:+ "Raw Details:" +:+ ServiceError.nl +:+ "<nil>" +:+ ServiceError.nl
     end.
Proof.
  intros report line. subst report. unfold ServiceError.PrettyPrintError.
  split; [eexists; reflexivity|]. split.
  - intros ctx k v Hctx Hk. apply occurs_in_append_r, occurs_in_append_l.
    unfold ServiceError.context_block. rewrite Hctx.
    assert (Hin : (k, v) ∈ map_to_list ctx) by (apply elem_of_map_to_list; exact Hk).
    assert (Hsz : (0 <? size ctx)%nat = true).
    { apply Nat.ltb_lt. rewrite <- length_map_to_list.
      destruct (map_to_list ctx); [inversion Hin|simpl; lia]. }
    rewrite Hsz. do 3 apply occurs_in_append_r. unfold line. rewrite !append_assoc.
    apply (occurs_in_concat
             (fun kv : string * string =>
                "- " +:+ fst kv +:+ ": " +:+ snd kv +:+ ServiceError.nl) (k, v)).
    exact Hin.
  - destruct (Service.Details e) as [|text|userError|genericError].
    + exists (ServiceError.header e +:+ ServiceError.context_block e +:+ ServiceError.nl).
      rewrite !append_assoc. reflexivity.
    + exists (ServiceError.header e +:+ ServiceError.context_block e +:+ ServiceError.nl).
      rewrite !append_assoc. reflexivity.
    + intros lang detail Hl.
      assert (Hblock : occurs_in (ServiceError.locale_block lang detail)
                (ServiceError.header e +:+ ServiceError.context_block e
                 +:+ ServiceError.nl +:+ "User Error Details:" +:+ ServiceError.nl
                 +:+ String.concat ""
                       (map (fun kv => ServiceError.locale_block (fst kv) (snd kv))
                          (map_to_list (service.Messages userError))))).
      { do 5 apply occurs_in_append_r.
        apply (occurs_in_concat
                 (fun kv : string * service.UserMessage_ =>
                    ServiceError.locale_block (fst kv) (snd kv)) (lang, detail)).
        apply elem_of_map_to_list. exact Hl. }
      split; [exact Hblock|].
      intros solution Hs. eapply occurs_in_trans; [|exact Hblock].
      apply locale_block_solution, Hs.
    + split.
      * do 5 apply occurs_in_append_r.
        eexists "", _. rewrite !append_assoc. reflexivity.
      * intros reason Hr. rewrite (nonempty_ltb _ _ Hr).
        do 10 apply occurs_in_append_r. apply bullets_occurs, Hr.
Qed.

Section ClassifierContext.
Context {T : Type} `{JT : JSON T} `{JU : JSON service.UserError} `{JE : JSON service.Error}.

Lemma Service_HandleAPIResponse_no_context
    (resp : option http.Response) (s v : T) (e : Service.APIError) (ops : list Op) :
  Service.HandleAPIResponse resp s = (v, Some e, ops) -> Service.ErrorContext e = None.
Proof.
  unfold Service.HandleAPIResponse. destruct resp as [r|].
  2:{ intros H. inversion H. reflexivity. }
  destruct (http.Body r) as [body|err|err].
  2,3: intros H; inversion H; reflexivity.
  destruct ((200 <=? http.StatusCode r) && (http.StatusCode r <? 300)).
  - destruct (json_Unmarshal body s) as [v' [err|]]; intros H; inversion H. reflexivity.
  - destruct (json_Unmarshal body (zero (T := service.UserError))) as [u eu].
    destruct (json_Unmarshal body (zero (T := service.Error))) as [g eg].
    destruct (bool_decide (eu = None) && (0 <? size (service.Messages u))%nat);
      [|destruct (bool_decide (eg = None) && negb (String.eqb (service.Msg g) ""))];
      intros H; inversion H; reflexivity.
Qed.

End ClassifierContext.

(** X7: classifying and then printing an error response whose body has
    neither error shape shows the body as it was received: the report is
    the six header lines, with the status, the request id, the method and
    the path of the response and the message "Unhandled error", then an
    empty line, "Raw Details:" and the body itself. *)
Theorem unhandled_body_is_printed_verbatim
    {T : Type} `{JT : JSON T} `{JU : JSON service.UserError} `{JE : JSON service.Error}
    (r : http.Response) (body : string) (successResponse : T) :
  ~ (200 <= http.StatusCode r < 300) ->
  http.Body r = Ok body ->
  classify body = UnhandledError body ->
  exists e ops,
    Service.HandleAPIResponse (Some r) successResponse = (successResponse, Some e, ops)
    /\ ServiceError.PrettyPrintError e
       = "API Error Report" +:+ ServiceError.nl
         +:+ "---------------" +:+ ServiceError.nl
         +:+ "Status:     " +:+ Go.Int_String (http.StatusCode r) +:+ ServiceError.nl
         +:+ "Request ID: " +:+ http.X_Request_ID r +:+ ServiceError.nl
         +:+ "Path:       " +:+ http.Request_Method r +:+ " " +:+ http.Request_URL_Path r
         +:+ ServiceError.nl
         +:+ "Message:    Unhandled error" +:+ ServiceError.nl
         +:+ ServiceError.nl +:+ "Raw Details:" +:+ ServiceError.nl
         +:+ body +:+ ServiceError.nl.
Proof.
  intros Hs Hb Hraw.
  destruct (Service_HandleAPIResponse_error r body successResponse Hs Hb)
    as (e & ops & Hrun & Hkind & Hcode & Hid & Hpath & Hmeth & Hmsg & _).
  exists e, ops. split; [exact Hrun|].
  pose proof (Service_HandleAPIResponse_no_context _ _ _ _ _ Hrun) as Hctx.
  rewrite Hraw in Hkind, Hmsg.
  assert (Hd : Service.Details e = DetailsText body).
  { destruct (Service.Details e); simpl in Hkind; inversion Hkind. reflexivity. }
  unfold ServiceError.PrettyPrintError, ServiceError.header, ServiceError.context_block.
  rewrite Hctx, Hd, Hcode, Hid, Hpath, Hmeth, Hmsg.
  rewrite !append_assoc. reflexivity.
Qed.

Section VerbatimWitness.
Import SimJSON.

Lemma unhandled_body_is_printed_verbatim_witness :
  exists e ops,
    Service.HandleAPIResponse (Some (response 502 "<html>Bad Gateway</html>")) ""
    = ("", Some e, ops)
    /\ ServiceError.PrettyPrintError e
       = "API Error Report" +:+ ServiceError.nl
         +:+ "---------------" +:+ ServiceError.nl
         +:+ "Status:     502" +:+ ServiceError.nl
         +:+ "Request ID: req-1" +:+ ServiceError.nl
         +:+ "Path:       POST /auth/login" +:+ ServiceError.nl
         +:+ "Message:    Unhandled error" +:+ ServiceError.nl
         +:+ ServiceError.nl +:+ "Raw Details:" +:+ ServiceError.nl
         +:+ "<html>Bad Gateway</html>" +:+ ServiceError.nl.
Proof.
  apply (unhandled_body_is_printed_verbatim (T := string)
           (response 502 "<html>Bad Gateway</html>") "<html>Bad Gateway</html>" "").
  - simpl. lia.
  - reflexivity.
  - reflexivity.
Defined.

End VerbatimWitness.
